(** * contract_decompile.py: naming table and import reconciliation

    A shallow embedding of [src/contract_decompile/contract_decompile.py]
    and the properties of its naming-table builder, its URL normalisation
    and its import reconciler.

    Conventions of the embedding.
    - A Python [str] is a [string]; a character is a code point below 256,
      and the regular-expression classes [\s] and [\w] are the ones Python
      uses for [str] patterns, restricted to that range.
    - A Python [dict] from [str] to [str] is a [gmap string string].
    - An uncaught exception is a value of [exn]; a computation that may
      raise returns [result A], where [inl e] means that [e] was raised.
    - A directory is a list of entries, an entry being the stem of a file
      name paired with the file's content; the order in which the file
      system lists the output directory is a parameter of the run.  The
      directory of reference disassemblies is only ever looked up by name
      and is a [gmap].
    - A file holds characters; [read_text] reads it in text mode, where
      CR LF and a lone CR become LF, and [write_text] stores a text as it
      is: the line separator of the platform is LF.
    - Console output ([print]) is not modelled. *)

From Stdlib Require Import String Ascii List Bool Arith Lia.
From stdpp Require Import base option list gmap strings pretty.

(** Let [simpl] and [cbn] compute the concatenation of strings. *)
#[global] Arguments String.append !_ _ / : simpl nomatch.

(** ** Python strings *)

Module Str.

(** [str.startswith]: [p] is a prefix of [s]. *)
Fixpoint startswith (p s : string) : bool :=
  match p with
  | EmptyString => true
  | String a p' =>
      match s with
      | EmptyString => false
      | String b s' => Ascii.eqb a b && startswith p' s'
      end
  end.

(** [p in s] for two strings: [p] occurs in [s] as a substring. *)
Fixpoint contains (p s : string) : bool :=
  startswith p s ||
  match s with
  | EmptyString => false
  | String _ s' => contains p s'
  end.

(** The scan of [str.replace] for a non-empty [old]: occurrences are
    taken leftmost first and do not overlap.  [skip] counts the
    characters of the occurrence just replaced that are still to be
    stepped over. *)
Fixpoint replace_go (old new : string) (skip : nat) (s : string) : string :=
  match s with
  | EmptyString => EmptyString
  | String c s' =>
      match skip with
      | S k => replace_go old new k s'
      | O =>
          if startswith old s
          then new +:+ replace_go old new (String.length old - 1) s'
          else String c (replace_go old new 0 s')
      end
  end.

(** For an empty [old], Python puts [new] before every character and at
    the end. *)
Fixpoint intersperse (new s : string) : string :=
  match s with
  | EmptyString => new
  | String c s' => new +:+ String c (intersperse new s')
  end.

(** [s.replace(old, new)]. *)
Definition replace (old new s : string) : string :=
  match old with
  | EmptyString => intersperse new s
  | String _ _ => replace_go old new 0 s
  end.

(** [s] without its first [n] characters: [s[n:]]. *)
Fixpoint drop (n : nat) (s : string) : string :=
  match n, s with
  | O, _ => s
  | S _, EmptyString => EmptyString
  | S k, String _ s' => drop k s'
  end.

(** The longest prefix of [s] whose characters satisfy [p], and the rest:
    what a greedy character-class repetition consumes. *)
Fixpoint span (p : ascii -> bool) (s : string) : string * string :=
  match s with
  | EmptyString => (EmptyString, EmptyString)
  | String c s' =>
      if p c then let '(a, b) := span p s' in (String c a, b)
      else (EmptyString, s)
  end.

(** Every character of [s] satisfies [p]. *)
Fixpoint all (p : ascii -> bool) (s : string) : bool :=
  match s with
  | EmptyString => true
  | String c s' => p c && all p s'
  end.

(** [s] after the literal [p], when [s] starts with it. *)
Fixpoint strip_prefix (p s : string) : option string :=
  match p with
  | EmptyString => Some s
  | String a p' =>
      match s with
      | EmptyString => None
      | String b s' => if Ascii.eqb a b then strip_prefix p' s' else None
      end
  end.

(** The last character of [s], if any. *)
Fixpoint last (s : string) : option ascii :=
  match s with
  | EmptyString => None
  | String c EmptyString => Some c
  | String _ s' => last s'
  end.

End Str.

(** ** Exceptions *)

(** The exceptions that end a run: [SystemExit] with its message, the
    decompiler's non-zero exit status ([subprocess.run] with
    [check=True]), and a failed fetch. *)
Inductive exn : Type :=
  | SystemExit (msg : string)
  | CalledProcessError (wasm : string)
  | URLError (url : string).

Definition result (A : Type) : Type := (exn + A)%type.

(** ** The naming descriptor and [build_map] *)

(** The parsed JSON document, for documents of the schema that the
    builder is written for: [modules] and [functions] are absent or hold a
    list of objects, [export] and [name] are absent or hold [null] or a
    string.  A field is [None] when [dict.get] returns Python's [None]: the
    key is absent (or holds JSON [null]).  For the two lists, [None] is an
    absent key, which [.get(key, [])] reads as the empty list.  A document
    in which [modules] or [functions] holds [null] or anything but a list
    of objects is outside the embedding ([build_map] ends there with a
    [TypeError] or an [AttributeError]); no property below speaks of such
    a document. *)
Record function_entry : Type := FunctionEntry {
  fn_export : option string;
  fn_name : option string
}.

Record module_entry : Type := ModuleEntry {
  mod_export : option string;
  mod_functions : option (list function_entry)
}.

Record descriptor : Type := Descriptor {
  modules : option (list module_entry)
}.

Definition missing_field : exn :=
  SystemExit "function entry missing export or name".

(** The inner loop of [build_map]: [for fn in mod.get("functions", [])]. *)
Fixpoint add_functions (mod_exp : string) (fns : list function_entry)
    (m : gmap string string) : result (gmap string string) :=
  match fns with
  | [] => inr m
  | fn :: fns' =>
      match fn_export fn, fn_name fn with
      | Some fn_exp, Some name =>
          let key := mod_exp +:+ fn_exp in
          add_functions mod_exp fns' (<[key := name]> m)
      | _, _ => inl missing_field
      end
  end.

(** The outer loop: [for mod in env.get("modules", [])].  The test
    [if not mod_exp: continue] skips a module whose alias is [None] or the
    empty string. *)
Fixpoint add_modules (mods : list module_entry) (m : gmap string string)
    : result (gmap string string) :=
  match mods with
  | [] => inr m
  | md :: mods' =>
      match mod_export md with
      | None | Some EmptyString => add_modules mods' m
      | Some mod_exp =>
          match add_functions mod_exp (default [] (mod_functions md)) m with
          | inl e => inl e
          | inr m' => add_modules mods' m'
          end
      end
  end.

Definition build_map (env : descriptor) : result (gmap string string) :=
  add_modules (default [] (modules env)) ∅.

(** ** The two regular expressions *)

Definition in_range (lo hi : nat) (c : ascii) : bool :=
  Nat.leb lo (nat_of_ascii c) && Nat.leb (nat_of_ascii c) hi.

(** [\s] of a [str] pattern: the characters for which [str.isspace] holds
    (tab to carriage return, the four separators 0x1c to 0x1f, space, NEL
    and the no-break space). *)
Definition is_space (c : ascii) : bool :=
  in_range 9 13 c || in_range 28 32 c || in_range 133 133 c || in_range 160 160 c.

(** The class [[A-Za-z0-9_]]. *)
Definition is_ident_char (c : ascii) : bool :=
  in_range 48 57 c || in_range 65 90 c || in_range 95 95 c || in_range 97 122 c.

(** [\w] of a [str] pattern: alphanumeric characters and the underscore.
    Below 256 these are the class above together with the Latin-1 letters
    and numerals. *)
Definition is_word_char (c : ascii) : bool :=
  is_ident_char c
  || in_range 170 170 c || in_range 178 179 c || in_range 181 181 c
  || in_range 185 186 c || in_range 188 190 c
  || in_range 192 214 c || in_range 216 246 c || in_range 248 255 c.

Definition is_not_quote (c : ascii) : bool := negb (Ascii.eqb c "034").

(** [\b]: exactly one of the character before the position and the
    character at it is a word character; outside the string counts as not
    a word character. *)
Definition word_boundary (prev : option ascii) (s : string) : bool :=
  xorb (from_option is_word_char false prev)
       (match s with String c _ => is_word_char c | EmptyString => false end).

(** One attempt of [\bimport function\s+([A-Za-z0-9_]+)\s*\(] at the start
    of [s], with [prev] the character before it: the captured identifier and
    the length of the match.  Each repetition is followed by something its
    class excludes, so that the greedy choice is the only one that can
    succeed and no backtracking takes place. *)
Definition match_decomp_import (prev : option ascii) (s : string)
    : option (string * nat) :=
  if negb (word_boundary prev s) then None else
  match Str.strip_prefix "import function" s with
  | None => None
  | Some s1 =>
      let '(ws1, s2) := Str.span is_space s1 in
      let '(ident, s3) := Str.span is_ident_char s2 in
      let '(ws2, s4) := Str.span is_space s3 in
      match ws1, ident, s4 with
      | String _ _, String _ _, String "(" _ =>
          Some (ident, 15 + String.length ws1 + String.length ident
                       + String.length ws2 + 1)
      | _, _, _ => None
      end
  end.

(** One attempt of [\(import\s+"([^"]+)"\s+"([^"]+)"] at the start of [s]:
    the two captured names and the length of the match. *)
Definition match_wat_import (prev : option ascii) (s : string)
    : option ((string * string) * nat) :=
  match Str.strip_prefix "(import" s with
  | None => None
  | Some s1 =>
      let '(ws1, s2) := Str.span is_space s1 in
      match ws1, s2 with
      | String _ _, String "034" s3 =>
          let '(m1, s4) := Str.span is_not_quote s3 in
          match m1, s4 with
          | String _ _, String "034" s5 =>
              let '(ws2, s6) := Str.span is_space s5 in
              match ws2, s6 with
              | String _ _, String "034" s7 =>
                  let '(m2, s8) := Str.span is_not_quote s7 in
                  match m2, s8 with
                  | String _ _, String "034" _ =>
                      Some ((m1, m2),
                            7 + String.length ws1 + 1 + String.length m1 + 1
                            + String.length ws2 + 1 + String.length m2 + 1)
                  | _, _ => None
                  end
              | _, _ => None
              end
          | _, _ => None
          end
      | _, _ => None
      end
  end.

(** [re.findall] for a pattern that never matches the empty string: the
    pattern is tried at each position from left to right, and after a match
    the search goes on at the end of it.  [prev] is the character before
    the current position and [skip] the number of characters of the last
    match still to be stepped over. *)
Fixpoint findall_go {A : Type}
    (match_at : option ascii -> string -> option (A * nat))
    (prev : option ascii) (skip : nat) (s : string) : list A :=
  match s with
  | EmptyString => []
  | String c s' =>
      match skip with
      | S k => findall_go match_at (Some c) k s'
      | O =>
          match match_at prev s with
          | Some (v, len) => v :: findall_go match_at (Some c) (len - 1) s'
          | None => findall_go match_at (Some c) 0 s'
          end
      end
  end.

Definition findall {A : Type}
    (match_at : option ascii -> string -> option (A * nat)) (s : string)
    : list A :=
  findall_go match_at None 0 s.

Definition extract_decomp_imports (text : string) : list string :=
  findall match_decomp_import text.

Definition extract_wat_imports (text : string) : list (string * string) :=
  findall match_wat_import text.

(** ** The import reconciler *)

Definition old_pat (orig : string) : string := " " +:+ orig +:+ "(".

Definition count_mismatch (name : string) (n_decomp n_wat : nat) : exn :=
  SystemExit ("import count mismatch in " +:+ name +:+ ": decomp="
              +:+ pretty n_decomp +:+ " wat=" +:+ pretty n_wat).

Definition mapping_not_found (key name : string) : exn :=
  SystemExit ("mapping not found for " +:+ key +:+ " (file " +:+ name +:+ ")").

Definition expected_not_found (orig name : string) : exn :=
  SystemExit ("expected ' " +:+ orig +:+ "(' in decomp " +:+ name
              +:+ " but not found").

Definition missing_wat (name : string) : exn :=
  SystemExit ("missing wat for " +:+ name).

(** The loop over [zip(decomp_imports, wat_imports)] (lines 68 to 80), on
    the text held in memory. *)
Fixpoint rewrite_imports (mapping : gmap string string) (name : string)
    (pairs : list (string * (string * string))) (decomp_text : string)
    : result string :=
  match pairs with
  | [] => inr decomp_text
  | (orig, (m1, m2)) :: pairs' =>
      let key := m1 +:+ m2 in
      match mapping !! key with
      | None => inl (mapping_not_found key name)
      | Some new =>
          if Str.contains (old_pat orig) decomp_text
          then rewrite_imports mapping name pairs'
                 (Str.replace (old_pat orig) (old_pat new) decomp_text)
          else inl (expected_not_found orig name)
      end
  end.

(** [Path.read_text]: the file is opened in text mode with universal
    newlines, so that CR LF and a lone CR are read as LF. *)
Fixpoint read_text (s : string) : string :=
  match s with
  | EmptyString => EmptyString
  | String c s' =>
      if Ascii.eqb c "013"
      then String "010"
             match s' with
             | EmptyString => EmptyString
             | String d s'' =>
                 if Ascii.eqb d "010" then read_text s'' else read_text s'
             end
      else String c (read_text s')
  end.

(** A text without carriage return: a file that holds one is read as
    itself. *)
Definition no_cr (s : string) : bool :=
  Str.all (λ c, negb (Ascii.eqb c "013")) s.

(** A character that ends a line for [read_text]. *)
Definition is_line_end (c : ascii) : bool :=
  Ascii.eqb c "013" || Ascii.eqb c "010".

(** The body of the loop of [process_pairs] for one file, up to the text
    that [write_text] is about to store: the existence of the
    disassembly is tested first, then both files are read. *)
Definition process_file (mapping : gmap string string)
    (wat_dir : gmap string string) (name decomp_file : string)
    : result string :=
  match wat_dir !! name with
  | None => inl (missing_wat name)
  | Some wat_file =>
      let decomp_text := read_text decomp_file in
      let wat_text := read_text wat_file in
      let decomp_imports := extract_decomp_imports decomp_text in
      let wat_imports := extract_wat_imports wat_text in
      if Nat.eqb (length decomp_imports) (length wat_imports)
      then rewrite_imports mapping name (zip decomp_imports wat_imports)
             decomp_text
      else inl (count_mismatch name (length decomp_imports)
                  (length wat_imports))
  end.

(** [process_pairs] on the files of the output directory in the order in
    which they are listed: each is read, rewritten in memory and written
    back.  An exception leaves the file at hand and the files after it as
    they were, and the files before it rewritten. *)
Fixpoint process_pairs (mapping : gmap string string)
    (wat_dir : gmap string string) (decomp_dir : list (string * string))
    : list (string * string) * result unit :=
  match decomp_dir with
  | [] => ([], inr tt)
  | (name, decomp_file) :: files =>
      match process_file mapping wat_dir name decomp_file with
      | inl e => (decomp_dir, inl e)
      | inr decomp_text' =>
          let '(files', r) := process_pairs mapping wat_dir files in
          ((name, decomp_text') :: files', r)
      end
  end.

(** ** The pipeline *)

(** The three directories of a run: the binary modules, the reference
    disassemblies and the output directory. *)
Record world : Type := World {
  contracts : list (string * string);
  wat : gmap string string;
  decomp : list (string * string)
}.

(** [open(out, "wb")] followed by a write: the file is created, or its
    content replaced. *)
Fixpoint write_file (name content : string) (dir : list (string * string))
    : list (string * string) :=
  match dir with
  | [] => [(name, content)]
  | (n, c) :: dir' =>
      if String.eqb n name then (name, content) :: dir'
      else (n, c) :: write_file name content dir'
  end.

Definition env_url : string :=
  "https://github.com/stellar/rs-soroban-env/blob/main/soroban-env-common/env.json".

(** Lines 18 and 19 of [fetch_json]: the address that is opened. *)
Definition fetch_url (url : string) : string :=
  if Str.contains "github.com" url && Str.contains "/blob/" url
  then Str.replace "/blob/" "/"
         (Str.replace "https://github.com" "https://raw.githubusercontent.com"
            url)
  else url.

Section Pipeline.

(** The network: the document found at an address, parsed. *)
Variable urlopen : string -> option descriptor.

(** The external decompiler on the content of a binary module: what it
    writes to its standard output, and whether its exit status is zero. *)
Variable wasm_decompile : string -> string * bool.

(** [Path(dir).glob("*.wasm")]: the files of a directory in the order in
    which the file system lists them. *)
Variable listdir : list (string * string) -> list (string * string).

Definition fetch_json (url : string) : result descriptor :=
  match urlopen (fetch_url url) with
  | Some env => inr env
  | None => inl (URLError (fetch_url url))
  end.

(** [decompile_all]: the output file is opened for writing before the
    decompiler runs, and holds whatever the decompiler wrote even when
    it fails. *)
Fixpoint decompile_all (wasms : list (string * string))
    (decomp_dir : list (string * string))
    : list (string * string) * result unit :=
  match wasms with
  | [] => (decomp_dir, inr tt)
  | (name, wasm) :: wasms' =>
      let '(out, ok) := wasm_decompile wasm in
      let decomp_dir' := write_file name out decomp_dir in
      if ok then decompile_all wasms' decomp_dir'
      else (decomp_dir', inl (CalledProcessError name))
  end.

Definition main (w : world) : world * result unit :=
  match fetch_json env_url with
  | inl e => (w, inl e)
  | inr env =>
      match build_map env with
      | inl e => (w, inl e)
      | inr mapping =>
          let '(d1, r1) :=
            decompile_all (listdir (contracts w)) (decomp w) in
          match r1 with
          | inl e => (World (contracts w) (wat w) d1, inl e)
          | inr _ =>
              let '(d2, r2) := process_pairs mapping (wat w) (listdir d1) in
              (World (contracts w) (wat w) d2, r2)
          end
      end
  end.

End Pipeline.

(** ** What the naming table is specified to be *)

(** The alias under which a module takes part in the table: the test of
    line 27 lets through an alias that is present and not empty. *)
Definition mod_alias (md : module_entry) : option string :=
  match mod_export md with
  | Some (String c s) => Some (String c s)
  | _ => None
  end.

(** The table entry a function entry stands for, when both of its fields
    are present. *)
Definition fn_binding (mod_exp : string) (fn : function_entry)
    : option (string * string) :=
  match fn_export fn, fn_name fn with
  | Some fn_exp, Some name => Some (mod_exp +:+ fn_exp, name)
  | _, _ => None
  end.

Definition mod_bindings (md : module_entry) : list (string * string) :=
  match mod_alias md with
  | Some mod_exp => omap (fn_binding mod_exp) (default [] (mod_functions md))
  | None => []
  end.

(** The (key, canonical name) pairs of a descriptor, in descriptor order. *)
Definition bindings (env : descriptor) : list (string * string) :=
  default [] (modules env) ≫= mod_bindings.

(** A function entry that lacks a field, inside a module that takes part. *)
Definition incomplete_entry (env : descriptor) (md : module_entry)
    (fn : function_entry) : Prop :=
  md ∈ default [] (modules env) ∧ is_Some (mod_alias md) ∧
  fn ∈ default [] (mod_functions md) ∧
  (fn_export fn = None ∨ fn_name fn = None).

Definition insert_binding (m : gmap string string) (kv : string * string)
    : gmap string string :=
  <[kv.1 := kv.2]> m.

(** The value of the last pair with key [k] in a list of pairs. *)
Fixpoint assoc_last (k : string) (l : list (string * string)) : option string :=
  match l with
  | [] => None
  | (k', v) :: l' =>
      match assoc_last k l' with
      | Some v' => Some v'
      | None => if String.eqb k' k then Some v else None
      end
  end.

(** Both fields of a function entry are present; and so for every function
    entry of every module that takes part. *)
Definition fn_complete (fn : function_entry) : bool :=
  match fn_export fn, fn_name fn with
  | Some _, Some _ => true
  | _, _ => false
  end.

Definition mod_complete (md : module_entry) : bool :=
  match mod_alias md with
  | Some _ => forallb fn_complete (default [] (mod_functions md))
  | None => true
  end.

Definition complete (env : descriptor) : bool :=
  forallb mod_complete (default [] (modules env)).

(** ** Decompiled files in the decompiler's form *)

(** The head of an import declaration as the decompiler prints it: the
    keywords, one space, the identifier and the opening parenthesis. *)
Definition decl (ident : string) : string :=
  "import function " +:+ ident +:+ "(".

(** One import of a file: the identifier the decompiler gave it, the text
    that follows the head of its declaration up to the next declaration,
    the two aliases of the import in the reference disassembly, and the
    canonical name the naming table has for them. *)
Record import_item : Type := ImportItem {
  it_ident : string;
  it_after : string;
  it_module : string;
  it_field : string;
  it_name : string
}.

(** The declarations [idents] of a file, each followed by its stretch of
    text from [segs]. *)
Fixpoint body (idents segs : list string) : string :=
  match idents, segs with
  | ident :: idents', seg :: segs' => decl ident +:+ seg +:+ body idents' segs'
  | _, _ => ""
  end.

(** The declarations of a file before reconciliation. *)
Definition decls_old (items : list import_item) : string :=
  body (map it_ident items) (map it_after items).

(** The substitutions of a run, applied in order to a stretch of text that
    holds no declaration: every [" ident("] becomes [" name(". *)
Definition sweep (items : list import_item) (t : string) : string :=
  foldl (λ t e, Str.replace (old_pat (it_ident e)) (old_pat (it_name e)) t)
    t items.

(** The declarations of a file after reconciliation: every identifier is
    the canonical name, and the text after a declaration has gone through
    the substitutions. *)
Definition decls_new (items : list import_item) : string :=
  body (map it_name items) (map (λ e, sweep items (it_after e)) items).

(** A character other than the space and the opening parenthesis. *)
Definition is_plain (c : ascii) : bool :=
  negb (Ascii.eqb c " ") && negb (Ascii.eqb c "(").

(** A non-empty string of the class [[A-Za-z0-9_]]. *)
Definition is_identifier (s : string) : bool :=
  match s with
  | EmptyString => false
  | String _ _ => Str.all is_ident_char s
  end.

(** A stretch of text between declarations: it holds no import keywords
    and does not end in a word character. *)
Definition quiet (seg : string) : bool :=
  negb (Str.contains "import function" seg)
  && negb (from_option is_word_char false (Str.last seg)).

Fixpoint distinct (l : list string) : bool :=
  match l with
  | [] => true
  | a :: l' => negb (existsb (String.eqb a) l') && distinct l'
  end.

(** No canonical name is the identifier of a later import. *)
Fixpoint chain_free (names idents : list string) : bool :=
  match names, idents with
  | n :: names', _ :: idents' =>
      negb (existsb (String.eqb n) idents') && chain_free names' idents'
  | _, _ => true
  end.

(** The file [s0 +:+ decls_old items] is in the decompiler's form: its
    import identifiers are pairwise distinct identifiers, the text around
    the declarations is quiet, and the canonical names hold no space and
    no parenthesis and are chain free. *)
Definition standard_form (s0 : string) (items : list import_item) : bool :=
  let idents := map it_ident items in
  forallb is_identifier idents
  && distinct idents
  && quiet s0
  && forallb (λ e, quiet (it_after e)) items
  && forallb (λ e, Str.all is_plain (it_name e)) items
  && chain_free (map it_name items) idents.

(** The naming table has the canonical name of every import. *)
Definition covered (mapping : gmap string string) (items : list import_item)
    : bool :=
  forallb (λ e, bool_decide (mapping !! (it_module e +:+ it_field e)
                             = Some (it_name e))) items.

(** The imports of a file after a run that renamed them: every identifier
    is now the canonical name, and the text has gone through the
    substitutions. *)
Definition renamed (items : list import_item) : list import_item :=
  map (λ e, ImportItem (it_name e) (sweep items (it_after e)) (it_module e)
              (it_field e) (it_name e)) items.

(** ** Texts for examples *)

(** [s] between double quotes. *)
Definition quoted (s : string) : string :=
  String "034" (s +:+ String "034" "").

(** An import line of a reference disassembly. *)
Definition wat_import (m1 m2 : string) : string :=
  "(import " +:+ quoted m1 +:+ " " +:+ quoted m2 +:+ " (func (;0;) (type 0)))".

Definition nl : string := String "010" "".

(** A line end as a file written on another platform has it. *)
Definition crlf : string := String "013" (String "010" "").

(** The scenario of the specification: the descriptor, a decompiled file
    with the import [l_1] and a call of it, the reference disassembly, and
    the file as reconciliation leaves it. *)
Definition scenario_env : descriptor :=
  Descriptor (Some
    [ModuleEntry (Some "v")
       (Some [FunctionEntry (Some "1") (Some "read_contract_data")])]).

Definition scenario_decomp : string :=
  "export memory memory(initial: 17, max: 0);" +:+ nl +:+
  "import function l_1(a:long):long; // func2" +:+ nl +:+
  "export function get(a:long):long {" +:+ nl +:+
  "  return l_1(a);" +:+ nl +:+
  "}" +:+ nl.

Definition scenario_wat : string :=
  "(module" +:+ nl +:+
  "  (type (;0;) (func (param i64) (result i64)))" +:+ nl +:+
  "  " +:+ wat_import "v" "1" +:+ nl +:+
  "  (func (;1;) (type 0) (param i64) (result i64) local.get 0 call 0))"
  +:+ nl.

Definition scenario_expected : string :=
  "export memory memory(initial: 17, max: 0);" +:+ nl +:+
  "import function read_contract_data(a:long):long; // func2" +:+ nl +:+
  "export function get(a:long):long {" +:+ nl +:+
  "  return read_contract_data(a);" +:+ nl +:+
  "}" +:+ nl.

(** The scenario's file, taken apart: the text before the declaration,
    and the import with the text after the head of its declaration. *)
Definition scenario_head : string :=
  "export memory memory(initial: 17, max: 0);" +:+ nl.

Definition scenario_items : list import_item :=
  [ImportItem "l_1"
     ("a:long):long; // func2" +:+ nl +:+
      "export function get(a:long):long {" +:+ nl +:+
      "  return l_1(a);" +:+ nl +:+
      "}" +:+ nl)
     "v" "1" "read_contract_data"].

(** The network and the decompiler of the scenario: the descriptor is
    served at the raw-content address only, and the decompiler prints the
    decompiled file. *)
Definition scenario_urlopen (url : string) : option descriptor :=
  if String.eqb url
       "https://raw.githubusercontent.com/stellar/rs-soroban-env/main/soroban-env-common/env.json"
  then Some scenario_env else None.

Definition scenario_decompile (wasm : string) : string * bool :=
  (scenario_decomp, true).

Definition scenario_world : world :=
  World [("contract", "wasm")] {[ "contract" := scenario_wat ]} [].

(** Three imports whose first canonical name is the identifier of the
    second import. *)
Definition chain_decomp : string :=
  "import function a();" +:+ nl +:+ "import function b();" +:+ nl +:+
  "import function c();" +:+ nl.

Definition chain_wat : string :=
  wat_import "m" "1" +:+ nl +:+ wat_import "m" "2" +:+ nl +:+
  wat_import "m" "3" +:+ nl.

Definition chain_mapping : gmap string string :=
  {[ "m1" := "b"; "m2" := "x"; "m3" := "y" ]}.

(** An import identifier that occurs twice, with the second import's name
    given to the import between them. *)
Definition repeat_decomp : string :=
  "import function x();" +:+ nl +:+ "import function y();" +:+ nl +:+
  "import function x();" +:+ nl.

Definition repeat_mapping : gmap string string :=
  {[ "m1" := "n"; "m2" := "x"; "m3" := "k" ]}.

(** The same file with a table that gives the import between them a name
    of its own. *)
Definition blocked_mapping : gmap string string :=
  {[ "m1" := "n"; "m2" := "z"; "m3" := "k" ]}.

(** The canonical names that the table has for [pairs] hold no space and
    no parenthesis and differ from [x]: no substitution for one of [pairs]
    can write [" x(". *)
Definition keeps_out (mapping : gmap string string) (x : string)
    (pairs : list (string * (string * string))) : bool :=
  forallb (λ p, match mapping !! (p.2.1 +:+ p.2.2) with
                | Some n => Str.all is_plain n && negb (String.eqb n x)
                | None => true
                end) pairs.

(** ** Notions used in the proofs *)

(** What follows a stretch of text between declarations: the end of the
    file or the next declaration. *)
Definition at_decl (rest : string) : Prop :=
  rest = "" ∨ Str.startswith "import function " rest = true.

(** The character before the position reached after [seg]. *)
Definition after (prev : option ascii) (seg : string) : option ascii :=
  match Str.last seg with
  | Some c => Some c
  | None => prev
  end.

(** What the substitution of [a] by [n] makes of an identifier. *)
Definition rename (a n ident : string) : string :=
  if String.eqb ident a then n else ident.

(** The pair the loop of [rewrite_imports] sees for an import. *)
Definition pair_of (e : import_item) : string * (string * string) :=
  (it_ident e, (it_module e, it_field e)).

(** What the substitutions of a run make of an identifier. *)
Definition renames (todo : list import_item) (ident : string) : string :=
  foldl (λ x e, rename (it_ident e) (it_name e) x) ident todo.

(** Every pair of the loop finds its name in the table and its identifier
    among the declarations, as the earlier substitutions left them. *)
Fixpoint runs (mapping : gmap string string) (todo : list import_item)
    (idents : list string) : Prop :=
  match todo with
  | [] => True
  | e :: todo' =>
      it_ident e ∈ idents ∧
      Str.all is_plain (it_ident e) = true ∧
      Str.all is_plain (it_name e) = true ∧
      mapping !! (it_module e +:+ it_field e) = Some (it_name e) ∧
      runs mapping todo' (map (rename (it_ident e) (it_name e)) idents)
  end.

(** ** Reading the directories *)

(** The content of the file [name] of a directory, if there is one. *)
Fixpoint read_file (name : string) (dir : list (string * string))
    : option string :=
  match dir with
  | [] => None
  | (n, c) :: dir' => if String.eqb n name then Some c else read_file name dir'
  end.

(** ** Reference disassemblies written one import after the other *)

(** A name as the disassembly pattern captures it: not empty and without a
    double quote. *)
Definition is_wat_name (s : string) : bool :=
  match s with
  | EmptyString => false
  | String _ _ => Str.all is_not_quote s
  end.

(** The part of an import line that the pattern matches. *)
Definition wat_entry (m1 m2 : string) : string :=
  "(import " +:+ quoted m1 +:+ " " +:+ quoted m2.

(** The import lines for [pairs], each followed by its stretch of text
    from [tails]. *)
Fixpoint wat_body (pairs : list (string * string)) (tails : list string)
    : string :=
  match pairs, tails with
  | (m1, m2) :: pairs', t :: tails' =>
      wat_entry m1 m2 +:+ t +:+ wat_body pairs' tails'
  | _, _ => ""
  end.

(** The rest of a disassembly at an import line, or at its end. *)
Definition at_wat (rest : string) : Prop :=
  rest = "" ∨ Str.startswith "(import" rest = true.

(** * Properties *)

(** ** Strings *)

Section StrFacts.

Implicit Types (s t u p : string) (c : ascii).

Lemma app_nil_r s : s +:+ "" = s.
Proof. induction s as [|c s IH]; simpl; [done|by f_equal]. Qed.

Lemma app_assoc s t u : (s +:+ t) +:+ u = s +:+ (t +:+ u).
Proof. induction s as [|c s IH]; simpl; [done|by f_equal]. Qed.

Lemma app_length s t :
  String.length (s +:+ t) = String.length s + String.length t.
Proof. induction s as [|c s IH]; simpl; [done|by rewrite IH]. Qed.

Lemma startswith_app p t : Str.startswith p (p +:+ t) = true.
Proof.
  induction p as [|c p IH]; simpl; [done|].
  by rewrite Ascii.eqb_refl, IH.
Qed.

Lemma startswith_inv p s :
  Str.startswith p s = true → s = p +:+ Str.drop (String.length p) s.
Proof.
  revert s. induction p as [|a p IH]; intros [|b s]; simpl; try done.
  intros [Hab Hp]%andb_true_iff. apply Ascii.eqb_eq in Hab as ->.
  f_equal. by apply IH.
Qed.

(** A pattern that fits into [s] is looked for in [s] alone. *)
Lemma startswith_app_fits p s t :
  String.length p ≤ String.length s →
  Str.startswith p (s +:+ t) = Str.startswith p s.
Proof.
  revert s. induction p as [|a p IH]; intros [|b s]; simpl; try done.
  - lia.
  - intros Hlen. f_equal. apply IH. lia.
Qed.

Lemma contains_here p s : Str.startswith p s = true → Str.contains p s = true.
Proof. intros H. destruct s; simpl in *; by rewrite H. Qed.

Lemma contains_cons p c s :
  Str.contains p (String c s)
  = Str.startswith p (String c s) || Str.contains p s.
Proof. done. Qed.

Lemma contains_app_r p s t :
  Str.contains p t = true → Str.contains p (s +:+ t) = true.
Proof.
  intros H. induction s as [|c s IH]; [done|].
  change (String c s +:+ t) with (String c (s +:+ t)).
  rewrite contains_cons, IH. apply orb_true_r.
Qed.

Lemma contains_middle p s t : Str.contains p (s +:+ p +:+ t) = true.
Proof. apply contains_app_r, contains_here, startswith_app. Qed.

(** *** [str.replace] *)

Lemma replace_go_skip old new u s :
  Str.replace_go old new (String.length u) (u +:+ s)
  = Str.replace_go old new 0 s.
Proof. induction u as [|c u IH]; simpl; [by destruct s|done]. Qed.

(** An occurrence at the head is replaced, and the scan resumes after
    it. *)
Lemma replace_go_hit c o new s :
  Str.replace_go (String c o) new 0 (String c o +:+ s)
  = new +:+ Str.replace_go (String c o) new 0 s.
Proof.
  change (String c o +:+ s) with (String c (o +:+ s)).
  cbn [Str.replace_go].
  change (String c (o +:+ s)) with (String c o +:+ s).
  rewrite startswith_app.
  replace (String.length (String c o) - 1) with (String.length o)
    by (cbn [String.length]; lia).
  by rewrite replace_go_skip.
Qed.

Lemma replace_go_miss old new c s :
  Str.startswith old (String c s) = false →
  Str.replace_go old new 0 (String c s)
  = String c (Str.replace_go old new 0 s).
Proof. intros H. cbn [Str.replace_go]. by rewrite H. Qed.

(** The scan as a recursion on the rest of the string. *)
Lemma replace_go_unfold c o new s :
  Str.replace_go (String c o) new 0 s
  = if Str.startswith (String c o) s
    then new +:+ Str.replace_go (String c o) new 0
                   (Str.drop (String.length (String c o)) s)
    else match s with
         | EmptyString => EmptyString
         | String d s' => String d (Str.replace_go (String c o) new 0 s')
         end.
Proof.
  destruct (Str.startswith (String c o) s) eqn:H.
  - rewrite (startswith_inv _ _ H) at 1. apply replace_go_hit.
  - destruct s as [|d s]; [done|]. by apply replace_go_miss.
Qed.

(** A string without an occurrence is left as it is. *)
Lemma replace_go_absent old new s :
  Str.contains old s = false → Str.replace_go old new 0 s = s.
Proof.
  induction s as [|c s IH]; [done|].
  rewrite contains_cons. intros [H1 H2]%orb_false_iff.
  rewrite replace_go_miss by done. by rewrite IH.
Qed.

End StrFacts.

(** ** Reading a file in text mode *)

Section ReadText.

Implicit Types (s t p : string) (c d : ascii).

Lemma read_text_cr_lf s :
  read_text (String "013" (String "010" s)) = String "010" (read_text s).
Proof. done. Qed.

Lemma read_text_cr s :
  Str.startswith (String "010" "") s = false →
  read_text (String "013" s) = String "010" (read_text s).
Proof.
  destruct s as [|d s]; [done|]. cbn [Str.startswith]. rewrite andb_true_r.
  rewrite Ascii.eqb_sym. intros Hd. cbn [read_text]. cbn [Ascii.eqb Bool.eqb].
  by rewrite Hd.
Qed.

Lemma read_text_other c s :
  Ascii.eqb c "013" = false → read_text (String c s) = String c (read_text s).
Proof. intros Hc. cbn [read_text]. by rewrite Hc. Qed.

(** Induction along the reading: a CR LF, a lone CR, another character. *)
Lemma read_text_ind (P : string → Prop) :
  P "" →
  (∀ s, P s → P (String "013" (String "010" s))) →
  (∀ s, Str.startswith (String "010" "") s = false → P s →
        P (String "013" s)) →
  (∀ c s, Ascii.eqb c "013" = false → P s → P (String c s)) →
  ∀ s, P s.
Proof.
  intros Hnil Hcrlf Hcr Hother s.
  cut (P s ∧ ∀ c, P (String c s)); [by intros [? _]|].
  induction s as [|d s [IH1 IH2]].
  - split; [done|]. intros c.
    destruct (Ascii.eqb c "013") eqn:Hc; [|by apply Hother].
    apply Ascii.eqb_eq in Hc as ->. by apply Hcr.
  - split; [apply IH2|]. intros c.
    destruct (Ascii.eqb c "013") eqn:Hc; [|by apply Hother].
    apply Ascii.eqb_eq in Hc as ->.
    destruct (Ascii.eqb d "010") eqn:Hd.
    + apply Ascii.eqb_eq in Hd as ->. by apply Hcrlf.
    + apply Hcr; [|apply IH2]. cbn [Str.startswith].
      by rewrite Ascii.eqb_sym, Hd.
Qed.

(** What has been read holds no carriage return. *)
Lemma read_text_no_cr s : no_cr (read_text s) = true.
Proof.
  unfold no_cr. induction s as [|s IH|s Hs IH|c s Hc IH] using read_text_ind.
  - done.
  - by rewrite read_text_cr_lf.
  - by rewrite read_text_cr.
  - rewrite read_text_other by done. cbn [Str.all]. by rewrite Hc.
Qed.

(** A text without carriage return is read as it is. *)
Lemma read_text_id s : no_cr s = true → read_text s = s.
Proof.
  unfold no_cr. induction s as [|c s IH]; [done|]. cbn [Str.all].
  intros [Hc Hs]%andb_true_iff. apply negb_true_iff in Hc.
  rewrite read_text_other by done. by rewrite IH.
Qed.

Lemma read_text_again s : read_text (read_text s) = read_text s.
Proof. apply read_text_id, read_text_no_cr. Qed.

Lemma no_cr_app s t : no_cr (s +:+ t) = no_cr s && no_cr t.
Proof.
  unfold no_cr. induction s as [|c s IH]; [done|].
  cbn [String.append Str.all]. by rewrite IH, andb_assoc.
Qed.

Lemma no_cr_replace_go old new k s :
  no_cr new = true → no_cr s = true →
  no_cr (Str.replace_go old new k s) = true.
Proof.
  intros Hnew. revert k. induction s as [|c s IH]; intros k; [done|].
  unfold no_cr at 1. cbn [Str.all].
  intros [Hc Hs]%andb_true_iff. cbn [Str.replace_go].
  destruct k as [|k]; [|by apply IH].
  destruct (Str.startswith old (String c s)).
  - rewrite no_cr_app, Hnew. by apply IH.
  - unfold no_cr. cbn [Str.all]. rewrite Hc. by apply IH.
Qed.

(** A literal without line ends starts the text read where it starts the
    file, and occurs in the one when it occurs in the other. *)
Lemma startswith_read_text p s :
  Str.all (λ c, negb (is_line_end c)) p = true →
  Str.startswith p (read_text s) = Str.startswith p s.
Proof.
  revert s. induction p as [|a p IH]; intros s; [done|].
  cbn [Str.all]. intros [Ha Hp]%andb_true_iff.
  apply negb_true_iff, orb_false_iff in Ha as [Hcr Hlf].
  destruct s as [|c s]; [done|].
  destruct (Ascii.eqb c "013") eqn:Hc.
  - apply Ascii.eqb_eq in Hc as ->.
    assert (∃ t, read_text (String "013" s) = String "010" t) as [t ->].
    { destruct s as [|d s]; [by eexists|]. cbn [read_text].
      cbn [Ascii.eqb Bool.eqb]. by eexists. }
    cbn [Str.startswith]. by rewrite Hcr, Hlf.
  - rewrite read_text_other by done. cbn [Str.startswith]. by rewrite IH.
Qed.

Lemma contains_read_text p s :
  Str.all (λ c, negb (is_line_end c)) p = true →
  Str.contains p (read_text s) = Str.contains p s.
Proof.
  intros Hp.
  assert (Hcr : ∀ t, Str.startswith p (String "013" t)
                     = Str.startswith p (String "010" t)).
  { intros t. destruct p as [|a p]; [done|]. cbn [Str.all] in Hp.
    apply andb_true_iff in Hp as [Ha _].
    apply negb_true_iff, orb_false_iff in Ha as [Ha1 Ha2].
    cbn [Str.startswith]. by rewrite Ha1, Ha2. }
  induction s as [|s IH|s Hs IH|c s Hc IH] using read_text_ind.
  - done.
  - rewrite read_text_cr_lf, !contains_cons, IH.
    rewrite <- (startswith_read_text p (String "013" (String "010" s))) by done.
    rewrite read_text_cr_lf.
    destruct (Str.startswith p (String "010" (read_text s))) eqn:H1;
      [done|].
    cbn [orb]. rewrite <- (startswith_read_text p (String "010" s)) by done.
    rewrite read_text_other by done. by rewrite H1.
  - rewrite read_text_cr by done. rewrite !contains_cons, IH.
    rewrite <- (startswith_read_text p (String "013" s)) by done.
    by rewrite read_text_cr by done.
  - rewrite read_text_other by done. rewrite !contains_cons, IH.
    rewrite <- (startswith_read_text p (String c s)) by done.
    by rewrite read_text_other by done.
Qed.

End ReadText.

(** ** The naming-table builder *)

Section BuildMap.

Implicit Types (m : gmap string string) (fns : list function_entry)
  (mods : list module_entry) (l : list (string * string)).

Lemma add_functions_bindings mod_exp fns m :
  Forall (λ fn, is_Some (fn_binding mod_exp fn)) fns →
  add_functions mod_exp fns m
  = inr (foldl insert_binding m (omap (fn_binding mod_exp) fns)).
Proof.
  intros Hall. revert m.
  induction Hall as [|fn fns [kv Hkv] _ IH]; intros m; [done|].
  cbn [add_functions omap list_omap]. unfold fn_binding in Hkv |- *.
  destruct (fn_export fn) as [e|], (fn_name fn) as [n|]; try discriminate.
  cbn. apply IH.
Qed.

Lemma add_functions_missing mod_exp fns m :
  Exists (λ fn, fn_export fn = None ∨ fn_name fn = None) fns →
  add_functions mod_exp fns m = inl missing_field.
Proof.
  intros Hex. revert m.
  induction Hex as [fn fns [H|H]|fn fns _ IH]; intros m;
    cbn [add_functions].
  - by rewrite H.
  - rewrite H. by destruct (fn_export fn).
  - destruct (fn_export fn), (fn_name fn); auto.
Qed.

Lemma fn_binding_cases mod_exp fn :
  is_Some (fn_binding mod_exp fn) ∨ fn_export fn = None ∨ fn_name fn = None.
Proof.
  unfold fn_binding.
  destruct (fn_export fn), (fn_name fn); eauto.
Qed.

Lemma functions_cases mod_exp fns :
  Forall (λ fn, is_Some (fn_binding mod_exp fn)) fns ∨
  Exists (λ fn, fn_export fn = None ∨ fn_name fn = None) fns.
Proof.
  induction fns as [|fn fns [IH|IH]]; [by left| |by right; right].
  destruct (fn_binding_cases mod_exp fn) as [H|H].
  - left. by constructor.
  - right. by left.
Qed.

(** The outer loop over an alias-less module does nothing. *)
Lemma add_modules_skip md mods m :
  mod_alias md = None → add_modules (md :: mods) m = add_modules mods m.
Proof.
  unfold mod_alias. cbn [add_modules].
  by destruct (mod_export md) as [[|c s]|].
Qed.

Lemma add_modules_step md mod_exp mods m :
  mod_alias md = Some mod_exp →
  add_modules (md :: mods) m
  = match add_functions mod_exp (default [] (mod_functions md)) m with
    | inl e => inl e
    | inr m' => add_modules mods m'
    end.
Proof.
  unfold mod_alias. cbn [add_modules].
  destruct (mod_export md) as [[|c s]|]; intros [= <-]; done.
Qed.

Lemma add_modules_app mods1 mods2 m :
  add_modules (mods1 ++ mods2) m
  = match add_modules mods1 m with
    | inl e => inl e
    | inr m' => add_modules mods2 m'
    end.
Proof.
  revert m. induction mods1 as [|md mods1 IH]; intros m; [done|].
  rewrite <- app_comm_cons.
  destruct (mod_alias md) as [mod_exp|] eqn:Hal.
  - rewrite !(add_modules_step _ _ _ _ Hal).
    destruct (add_functions _ _ _); [done|apply IH].
  - rewrite !add_modules_skip by done. apply IH.
Qed.

(** Every error of the builder is the missing-field error. *)
Lemma add_modules_error mods m e :
  add_modules mods m = inl e → e = missing_field.
Proof.
  revert m. induction mods as [|md mods IH]; intros m; [done|].
  destruct (mod_alias md) as [mod_exp|] eqn:Hal.
  - rewrite (add_modules_step _ _ _ _ Hal).
    destruct (functions_cases mod_exp (default [] (mod_functions md)))
      as [H|H].
    + rewrite add_functions_bindings by done. apply IH.
    + rewrite add_functions_missing by done. congruence.
  - rewrite add_modules_skip by done. apply IH.
Qed.

(** The builder fails exactly on a descriptor with an incomplete entry. *)
Lemma add_modules_fails_iff mods m :
  add_modules mods m = inl missing_field ↔
  ∃ md fn, md ∈ mods ∧ is_Some (mod_alias md) ∧
           fn ∈ default [] (mod_functions md) ∧
           (fn_export fn = None ∨ fn_name fn = None).
Proof.
  revert m. induction mods as [|md mods IH]; intros m.
  - split; [done|]. intros (md & fn & Hin & _). by apply elem_of_nil in Hin.
  - destruct (mod_alias md) as [mod_exp|] eqn:Hal.
    + rewrite (add_modules_step _ _ _ _ Hal).
      destruct (functions_cases mod_exp (default [] (mod_functions md)))
        as [H|H].
      * rewrite add_functions_bindings by done. rewrite IH.
        split; intros (md' & fn & Hin & Hsome & Hfn & Hnone).
        -- exists md', fn. split_and!; auto. by right.
        -- apply elem_of_cons in Hin as [->|Hin]; [|by eauto 10].
           rewrite Forall_forall in H. destruct (H _ Hfn) as [kv Hkv].
           unfold fn_binding in Hkv.
           destruct Hnone as [Hn|Hn]; rewrite Hn in Hkv;
             [done|by destruct (fn_export fn)].
      * rewrite add_functions_missing by done. split; [intros _|done].
        apply Exists_exists in H as (fn & Hfn & Hnone).
        exists md, fn. rewrite Hal. split_and!; eauto. by left.
    + rewrite add_modules_skip by done. rewrite IH.
      split; intros (md' & fn & Hin & Hsome & Hfn & Hnone).
      * exists md', fn. split_and!; auto. by right.
      * apply elem_of_cons in Hin as [->|Hin]; [|by eauto 10].
        rewrite Hal in Hsome. by destruct Hsome.
Qed.

Lemma build_map_fails_iff env :
  build_map env = inl missing_field ↔ ∃ md fn, incomplete_entry env md fn.
Proof. apply add_modules_fails_iff. Qed.

Lemma build_map_error env e : build_map env = inl e → e = missing_field.
Proof. apply add_modules_error. Qed.

(** On a descriptor without incomplete entries the table is the one
    obtained by inserting the bindings in descriptor order. *)
Lemma add_modules_bindings mods m :
  (∀ md fn, md ∈ mods → is_Some (mod_alias md) →
            fn ∈ default [] (mod_functions md) →
            fn_export fn ≠ None ∧ fn_name fn ≠ None) →
  add_modules mods m = inr (foldl insert_binding m (mods ≫= mod_bindings)).
Proof.
  revert m. induction mods as [|md mods IH]; intros m Hok; [done|].
  cbn [mbind list_bind]. rewrite foldl_app. unfold mod_bindings at 1.
  assert (Hok' : ∀ md' fn, md' ∈ mods → is_Some (mod_alias md') →
                 fn ∈ default [] (mod_functions md') →
                 fn_export fn ≠ None ∧ fn_name fn ≠ None).
  { intros md' fn Hin. apply Hok. by right. }
  destruct (mod_alias md) as [mod_exp|] eqn:Hal.
  - rewrite (add_modules_step _ _ _ _ Hal).
    rewrite add_functions_bindings; [by apply IH|].
    apply Forall_forall. intros fn Hfn.
    destruct (Hok md fn) as [He Hn]; [by left|by rewrite Hal|done|].
    unfold fn_binding.
    destruct (fn_export fn), (fn_name fn); done.
  - rewrite add_modules_skip by done. by apply IH.
Qed.

Lemma foldl_insert_binding_lookup l m k :
  foldl insert_binding m l !! k
  = match assoc_last k l with Some v => Some v | None => m !! k end.
Proof.
  revert m. induction l as [|[k' v] l IH]; intros m; [done|].
  cbn [foldl assoc_last]. rewrite IH.
  destruct (assoc_last k l); [done|].
  unfold insert_binding; cbn [fst snd].
  destruct (String.eqb_spec k' k) as [->|Hne].
  - apply lookup_insert_eq.
  - by apply lookup_insert_ne.
Qed.

Lemma assoc_last_app k l1 l2 :
  assoc_last k (l1 ++ l2)
  = match assoc_last k l2 with
    | Some v => Some v
    | None => assoc_last k l1
    end.
Proof.
  induction l1 as [|[k' v] l1 IH]; cbn [app assoc_last].
  - by destruct (assoc_last k l2).
  - rewrite IH. by destruct (assoc_last k l2).
Qed.

Lemma add_functions_app mod_exp fns1 fns2 m :
  add_functions mod_exp (fns1 ++ fns2) m
  = match add_functions mod_exp fns1 m with
    | inl e => inl e
    | inr m' => add_functions mod_exp fns2 m'
    end.
Proof.
  revert m. induction fns1 as [|fn fns1 IH]; intros m; [done|].
  rewrite <- app_comm_cons. cbn [add_functions].
  destruct (fn_export fn), (fn_name fn); first [done|apply IH].
Qed.

(** Whether the loops raise does not depend on the table built so far. *)
Lemma add_functions_error_any mod_exp fns m m' e :
  add_functions mod_exp fns m = inl e → add_functions mod_exp fns m' = inl e.
Proof.
  revert m m'. induction fns as [|fn fns IH]; intros m m'; [done|].
  cbn [add_functions].
  destruct (fn_export fn), (fn_name fn); first [done|apply IH].
Qed.

Lemma add_modules_error_any mods m m' e :
  add_modules mods m = inl e → add_modules mods m' = inl e.
Proof.
  revert m m'. induction mods as [|md mods IH]; intros m m'; [done|].
  destruct (mod_alias md) as [mod_exp|] eqn:Hal.
  - rewrite !(add_modules_step _ _ _ _ Hal).
    destruct (add_functions mod_exp _ m) as [e1|m1] eqn:H1.
    + intros [= ->]. by rewrite (add_functions_error_any _ _ _ m' _ H1).
    + destruct (add_functions mod_exp _ m') as [e2|m2] eqn:H2.
      * apply (add_functions_error_any _ _ _ m) in H2. congruence.
      * apply IH.
  - rewrite !add_modules_skip by done. apply IH.
Qed.

(** A table that the builder returns is the one obtained by inserting the
    bindings in descriptor order. *)
Lemma build_map_success_bindings env m :
  build_map env = inr m → m = foldl insert_binding ∅ (bindings env).
Proof.
  intros Hb.
  assert (Hall : build_map env
                 = inr (foldl insert_binding ∅ (bindings env))).
  { apply add_modules_bindings. intros md fn Hmd Hal Hfn.
    split; intros Hnone;
      (assert (Hfail : build_map env = inl missing_field);
       [apply build_map_fails_iff; exists md, fn; unfold incomplete_entry;
        eauto|congruence]). }
  congruence.
Qed.

End BuildMap.

Section BuildMapClaims.

Lemma complete_no_incomplete_entry env :
  complete env = true → ∀ md fn, ¬ incomplete_entry env md fn.
Proof.
  unfold complete. rewrite forallb_forall.
  intros Hc md fn (Hmd & [a Ha] & Hfn & Hnone).
  apply list_elem_of_In, Hc in Hmd. unfold mod_complete in Hmd.
  rewrite Ha, forallb_forall in Hmd.
  apply list_elem_of_In, Hmd in Hfn. unfold fn_complete in Hfn.
  destruct Hnone as [H|H]; rewrite H in Hfn;
    [done|by destruct (fn_export fn)].
Qed.

Lemma build_map_complete env :
  complete env = true →
  build_map env = inr (foldl insert_binding ∅ (bindings env)).
Proof.
  intros Hc. apply add_modules_bindings. intros md fn Hmd Hal Hfn.
  pose proof (complete_no_incomplete_entry env Hc md fn) as Hno.
  unfold incomplete_entry in Hno.
  destruct (fn_export fn) eqn:He, (fn_name fn) eqn:Hn; try done;
    exfalso; apply Hno; eauto.
Qed.

(** C5: a module entry without an export alias contributes nothing to the
    naming table and its function entries are never looked at: whatever
    the entry contains, the builder returns the table, or raises the
    error, that it returns or raises on the descriptor without the
    entry. *)
Theorem build_map_skips_module_without_export mods1 md mods2 :
  mod_export md = None →
  build_map (Descriptor (Some (mods1 ++ md :: mods2)))
  = build_map (Descriptor (Some (mods1 ++ mods2))).
Proof.
  intros Hnone.
  change (add_modules (mods1 ++ md :: mods2) ∅ = add_modules (mods1 ++ mods2) ∅).
  rewrite !add_modules_app.
  destruct (add_modules mods1 ∅) as [e|m]; [done|].
  apply add_modules_skip. unfold mod_alias. by rewrite Hnone.
Qed.

Lemma build_map_skips_module_without_export_witness :
  let md := ModuleEntry None (Some [FunctionEntry None (Some "f")]) in
  let mods1 := [ModuleEntry (Some "v")
                  (Some [FunctionEntry (Some "1") (Some "g")])] in
  mod_export md = None ∧
  build_map (Descriptor (Some (mods1 ++ md :: [])))
  = build_map (Descriptor (Some (mods1 ++ []))).
Proof.
  split; [reflexivity|].
  apply (build_map_skips_module_without_export
           [ModuleEntry (Some "v")
              (Some [FunctionEntry (Some "1") (Some "g")])]
           (ModuleEntry None (Some [FunctionEntry None (Some "f")])) []).
  reflexivity.
Defined.

(** C7: when two function entries of a descriptor without incomplete
    entries give the same key, and no entry after the second gives it
    again, the builder raises nothing and the table maps the key to the
    canonical name of the second. *)
Theorem build_map_later_wins env l1 k v1 l2 v2 l3 :
  complete env = true →
  bindings env = l1 ++ (k, v1) :: l2 ++ (k, v2) :: l3 →
  assoc_last k l3 = None →
  ∃ m, build_map env = inr m ∧ m !! k = Some v2.
Proof.
  intros Hc Hb Hlast. eexists. split; [by apply build_map_complete|].
  rewrite foldl_insert_binding_lookup, Hb.
  rewrite assoc_last_app. cbn [assoc_last].
  rewrite assoc_last_app. cbn [assoc_last].
  rewrite Hlast, String.eqb_refl. done.
Qed.

Lemma build_map_later_wins_witness :
  let env :=
    Descriptor (Some
      [ModuleEntry (Some "ab") (Some [FunctionEntry (Some "c") (Some "first")]);
       ModuleEntry (Some "a") (Some [FunctionEntry (Some "bc") (Some "second")])]) in
  complete env = true ∧
  bindings env = [] ++ ("abc", "first") :: [] ++ ("abc", "second") :: [] ∧
  assoc_last "abc" [] = None ∧
  ∃ m, build_map env = inr m ∧ m !! "abc" = Some "second".
Proof.
  split; [reflexivity|]. split; [reflexivity|]. split; [reflexivity|].
  apply (build_map_later_wins _ [] "abc" "first" [] "second" []);
    reflexivity.
Defined.

(** C10: the empty string is treated differently in the two places.  A
    module whose export alias is the empty string is skipped like a module
    without an alias.  A function entry whose export alias is the empty
    string, wherever it stands in a module that takes part, is accepted:
    the builder raises with it exactly when it raises without it; and
    when the builder returns a table, the entry has contributed the key
    that is the module's alias alone: the table maps that key to the
    entry's name, or to the name of a later entry that gives the same key,
    and is at every other key the table of the descriptor without the
    entry.  And "function entry missing export or name" is raised only on
    a descriptor that has, in a module that takes part, a function entry
    without its export alias or without its name. *)
Theorem build_map_empty_alias mods1 md mods2 mods3 mod_exp fns1 name fns2
    mods4 env :
  let entry := FunctionEntry (Some "") (Some name) in
  let with_entry :=
    Descriptor (Some (mods3 ++ ModuleEntry (Some mod_exp)
                                 (Some (fns1 ++ entry :: fns2)) :: mods4)) in
  let without_entry :=
    Descriptor (Some (mods3 ++ ModuleEntry (Some mod_exp)
                                 (Some (fns1 ++ fns2)) :: mods4)) in
  let later :=
    bindings (Descriptor (Some (ModuleEntry (Some mod_exp) (Some fns2)
                                  :: mods4))) in
  mod_export md = Some "" →
  mod_exp ≠ "" →
  build_map (Descriptor (Some (mods1 ++ md :: mods2)))
  = build_map (Descriptor (Some (mods1 ++ mods2)))
  ∧ (∀ e, build_map with_entry = inl e ↔ build_map without_entry = inl e)
  ∧ (∀ m, build_map with_entry = inr m →
          m !! mod_exp = Some (default name (assoc_last mod_exp later))
          ∧ ∃ m', build_map without_entry = inr m'
                  ∧ ∀ k, k ≠ mod_exp → m !! k = m' !! k)
  ∧ (build_map env = inl (SystemExit "function entry missing export or name")
     → ∃ md' fn, md' ∈ default [] (modules env)
                 ∧ (∃ c a, mod_export md' = Some (String c a))
                 ∧ fn ∈ default [] (mod_functions md')
                 ∧ (fn_export fn = None ∨ fn_name fn = None)).
Proof.
  intros entry with_entry without_entry later Hempty Hne.
  assert (Hal : ∀ fns, mod_alias (ModuleEntry (Some mod_exp) (Some fns))
                       = Some mod_exp).
  { intros fns. unfold mod_alias. cbn. by destruct mod_exp. }
  assert (Herr : ∀ e, build_map with_entry = inl e
                      ↔ build_map without_entry = inl e).
  { intros e. unfold build_map, with_entry, without_entry.
    cbn [modules default from_option id]. rewrite !add_modules_app.
    destruct (add_modules mods3 ∅) as [e0|m0]; [done|].
    rewrite !(add_modules_step _ _ _ _ (Hal _)).
    cbn [mod_functions default from_option id]. rewrite !add_functions_app.
    destruct (add_functions mod_exp fns1 m0) as [e1|m1]; [done|].
    cbn [add_functions entry fn_export fn_name].
    set (m1' := <[mod_exp +:+ "" := name]> m1).
    destruct (add_functions mod_exp fns2 m1') as [e2|m2] eqn:H2,
      (add_functions mod_exp fns2 m1) as [e2'|m2'] eqn:H2'.
    - apply (add_functions_error_any _ _ _ m1) in H2.
      rewrite H2 in H2'. by injection H2' as ->.
    - apply (add_functions_error_any _ _ _ m1) in H2. congruence.
    - apply (add_functions_error_any _ _ _ m1') in H2'. congruence.
    - split; apply add_modules_error_any. }
  assert (Hmb : ∀ fns, mod_bindings (ModuleEntry (Some mod_exp) (Some fns))
                       = omap (fn_binding mod_exp) fns).
  { intros fns. unfold mod_bindings. by rewrite Hal. }
  assert (Hwith : bindings with_entry
                  = ((mods3 ≫= mod_bindings)
                     ++ omap (fn_binding mod_exp) fns1)
                    ++ (mod_exp, name) :: later).
  { subst with_entry later. unfold bindings.
    cbn [modules default from_option id].
    rewrite bind_app, !bind_cons, !Hmb, omap_app.
    cbn [omap list_omap fn_binding entry fn_export fn_name].
    rewrite app_nil_r. by rewrite <- !List.app_assoc. }
  assert (Hwithout : bindings without_entry
                     = ((mods3 ≫= mod_bindings)
                        ++ omap (fn_binding mod_exp) fns1) ++ later).
  { subst without_entry later. unfold bindings.
    cbn [modules default from_option id].
    rewrite bind_app, !bind_cons, !Hmb, omap_app.
    by rewrite <- !List.app_assoc. }
  split_and!.
  - change (add_modules (mods1 ++ md :: mods2) ∅
            = add_modules (mods1 ++ mods2) ∅).
    rewrite !add_modules_app.
    destruct (add_modules mods1 ∅) as [e'|m]; [done|].
    apply add_modules_skip. unfold mod_alias. by rewrite Hempty.
  - exact Herr.
  - intros m Hm.
    pose proof (build_map_success_bindings _ _ Hm) as ->.
    destruct (build_map without_entry) as [e'|m'] eqn:Hm'.
    { pose proof (proj2 (Herr e') eq_refl). congruence. }
    pose proof (build_map_success_bindings _ _ Hm') as ->.
    split.
    + rewrite foldl_insert_binding_lookup, Hwith, assoc_last_app.
      cbn [assoc_last]. rewrite String.eqb_refl, lookup_empty.
      by destruct (assoc_last mod_exp later).
    + eexists. split; [done|]. intros k Hk.
      rewrite !foldl_insert_binding_lookup, Hwith, Hwithout.
      rewrite !assoc_last_app. cbn [assoc_last].
      apply String.eqb_neq in Hk. rewrite String.eqb_sym in Hk.
      rewrite Hk. by destruct (assoc_last k later).
  - intros Hb. apply build_map_fails_iff in Hb
      as (md' & fn & Hmd & [a Ha] & Hfn & Hnone).
    exists md', fn. split_and!; try done.
    unfold mod_alias in Ha. destruct (mod_export md') as [[|c a']|]; try done.
    by exists c, a'.
Qed.

Lemma build_map_empty_alias_witness :
  let md := ModuleEntry (Some "") (Some [FunctionEntry None None]) in
  let mods3 :=
    [ModuleEntry (Some "a") (Some [FunctionEntry (Some "b") (Some "ab")])] in
  let fns1 := [FunctionEntry (Some "1") (Some "one")] in
  let fns2 := [FunctionEntry (Some "2") (Some "two")] in
  let mods4 := [ModuleEntry None None] in
  let env := Descriptor (Some [ModuleEntry (Some "v")
                                 (Some [FunctionEntry (Some "") None])]) in
  let entry := FunctionEntry (Some "") (Some "n") in
  let with_entry :=
    Descriptor (Some (mods3 ++ ModuleEntry (Some "v")
                                 (Some (fns1 ++ entry :: fns2)) :: mods4)) in
  let without_entry :=
    Descriptor (Some (mods3 ++ ModuleEntry (Some "v")
                                 (Some (fns1 ++ fns2)) :: mods4)) in
  let later :=
    bindings (Descriptor (Some (ModuleEntry (Some "v") (Some fns2)
                                  :: mods4))) in
  mod_export md = Some "" ∧ "v" ≠ "" ∧
  build_map with_entry
  = inr {[ "ab" := "ab"; "v1" := "one"; "v" := "n"; "v2" := "two" ]} ∧
  build_map (Descriptor (Some ([] ++ md :: [])))
  = build_map (Descriptor (Some ([] ++ [])))
  ∧ (∀ e, build_map with_entry = inl e ↔ build_map without_entry = inl e)
  ∧ (∀ m, build_map with_entry = inr m →
          m !! "v" = Some (default "n" (assoc_last "v" later))
          ∧ ∃ m', build_map without_entry = inr m'
                  ∧ ∀ k, k ≠ "v" → m !! k = m' !! k)
  ∧ (build_map env = inl (SystemExit "function entry missing export or name")
     → ∃ md' fn, md' ∈ default [] (modules env)
                 ∧ (∃ c a, mod_export md' = Some (String c a))
                 ∧ fn ∈ default [] (mod_functions md')
                 ∧ (fn_export fn = None ∨ fn_name fn = None)).
Proof.
  split; [reflexivity|]. split; [discriminate|].
  split; [vm_compute; reflexivity|].
  apply (build_map_empty_alias []
           (ModuleEntry (Some "") (Some [FunctionEntry None None])) []
           [ModuleEntry (Some "a")
              (Some [FunctionEntry (Some "b") (Some "ab")])]
           "v" [FunctionEntry (Some "1") (Some "one")] "n"
           [FunctionEntry (Some "2") (Some "two")]
           [ModuleEntry None None]
           (Descriptor (Some [ModuleEntry (Some "v")
                                (Some [FunctionEntry (Some "") None])])));
    [reflexivity|discriminate].
Defined.

End BuildMapClaims.

(** ** The reconciler: order of the checks, and what reaches the disk *)

Section Reconciler.

Variables (mapping : gmap string string) (wat_dir : gmap string string).

Implicit Types (pairs : list (string * (string * string)))
  (dir : list (string * string)).

Lemma rewrite_imports_app name pairs1 pairs2 text :
  rewrite_imports mapping name (pairs1 ++ pairs2) text
  = match rewrite_imports mapping name pairs1 text with
    | inl e => inl e
    | inr text' => rewrite_imports mapping name pairs2 text'
    end.
Proof.
  revert text.
  induction pairs1 as [|[orig [m1 m2]] pairs1 IH]; intros text; [done|].
  rewrite <- app_comm_cons. cbn [rewrite_imports].
  destruct (mapping !! (m1 +:+ m2)); [|done].
  destruct (Str.contains _ _); [apply IH|done].
Qed.

Lemma process_pairs_app dir1 dir2 :
  process_pairs mapping wat_dir (dir1 ++ dir2)
  = let '(dir1', r1) := process_pairs mapping wat_dir dir1 in
    match r1 with
    | inl e => (dir1' ++ dir2, inl e)
    | inr _ =>
        let '(dir2', r2) := process_pairs mapping wat_dir dir2 in
        (dir1' ++ dir2', r2)
    end.
Proof.
  induction dir1 as [|[name text] dir1 IH].
  - cbn. by destruct (process_pairs mapping wat_dir dir2).
  - rewrite <- app_comm_cons. cbn [process_pairs].
    destruct (process_file mapping wat_dir name text) as [e|text']; [done|].
    rewrite IH.
    destruct (process_pairs mapping wat_dir dir1) as [dir1' [e|[]]]; [done|].
    by destruct (process_pairs mapping wat_dir dir2).
Qed.

(** A file on which [process_file] raises stops the run and stays as it
    was, together with the files after it. *)
Lemma process_pairs_abort before before' name text after e :
  process_pairs mapping wat_dir before = (before', inr tt) →
  process_file mapping wat_dir name text = inl e →
  process_pairs mapping wat_dir (before ++ (name, text) :: after)
  = (before' ++ (name, text) :: after, inl e).
Proof.
  intros Hb He. rewrite process_pairs_app, Hb.
  cbn [process_pairs]. by rewrite He.
Qed.

(** Wherever it stands in the directory, a file on which [process_file]
    raises makes the run fail, and is in the directory after the run as it
    was before. *)
Lemma process_pairs_failing name text e dir dir' r :
  process_file mapping wat_dir name text = inl e →
  (name, text) ∈ dir →
  process_pairs mapping wat_dir dir = (dir', r) →
  (name, text) ∈ dir' ∧ ∃ e', r = inl e'.
Proof.
  intros He Hin. revert dir' r.
  induction dir as [|[n t] dir IH]; intros dir' r; [by apply elem_of_nil in Hin|].
  cbn [process_pairs].
  destruct (process_file mapping wat_dir n t) as [e0|t'] eqn:Hnt.
  - intros [= <- <-]. eauto.
  - apply elem_of_cons in Hin as [[= <- <-]|Hin]; [congruence|].
    destruct (process_pairs mapping wat_dir dir) as [files' r'].
    intros [= <- <-]. destruct (IH Hin files' r' eq_refl) as [Hin' Hr].
    split; [by right|done].
Qed.

(** C2: when the number of import identifiers found in the text read
    from a decompiled file differs from the number of pairs found in the
    text read from its reference disassembly, the run stops at that file,
    when it gets there, with the message
    "import count mismatch in NAME: decomp=N wat=M"; and wherever the file
    stands in the directory, the run fails and the file keeps its
    content. *)
Theorem count_mismatch_aborts name decomp_file wat_file before before' after :
  let decomp_text := read_text decomp_file in
  let wat_text := read_text wat_file in
  wat_dir !! name = Some wat_file →
  length (extract_decomp_imports decomp_text)
    ≠ length (extract_wat_imports wat_text) →
  process_pairs mapping wat_dir before = (before', inr tt) →
  process_pairs mapping wat_dir (before ++ (name, decomp_file) :: after)
  = (before' ++ (name, decomp_file) :: after,
     inl (SystemExit
            ("import count mismatch in " +:+ name +:+ ": decomp="
             +:+ pretty (length (extract_decomp_imports decomp_text))
               +:+ " wat="
               +:+ pretty (length (extract_wat_imports wat_text)))))
  ∧ (∀ dir dir' r,
       (name, decomp_file) ∈ dir →
       process_pairs mapping wat_dir dir = (dir', r) →
       (name, decomp_file) ∈ dir' ∧ ∃ e, r = inl e).
Proof.
  intros decomp_text wat_text Hwat Hlen Hb.
  assert (Hfile : process_file mapping wat_dir name decomp_file
                  = inl (count_mismatch name
                           (length (extract_decomp_imports decomp_text))
                           (length (extract_wat_imports wat_text)))).
  { subst decomp_text wat_text. unfold process_file. rewrite Hwat. cbv zeta.
    by apply Nat.eqb_neq in Hlen as ->. }
  split; [by apply process_pairs_abort|].
  intros dir dir' r.
  by apply (process_pairs_failing _ _ _ _ _ _ Hfile).
Qed.

(** C3: when the loop over the pairs of a file (the identifiers and the
    pairs found in the texts read from the file and from its
    disassembly) reaches a pair whose key, module alias directly followed
    by field alias, is not in the naming table, the run stops at that file
    with the message "mapping not found for KEY (file NAME)"; whatever the
    earlier pairs substituted in memory is lost; and wherever the file
    stands in the directory, the run fails and the file keeps its
    content. *)
Theorem mapping_miss_aborts name decomp_file wat_file earlier orig m1 m2 rest
    text' before before' after :
  let decomp_text := read_text decomp_file in
  let wat_text := read_text wat_file in
  wat_dir !! name = Some wat_file →
  length (extract_decomp_imports decomp_text)
    = length (extract_wat_imports wat_text) →
  zip (extract_decomp_imports decomp_text) (extract_wat_imports wat_text)
    = earlier ++ (orig, (m1, m2)) :: rest →
  rewrite_imports mapping name earlier decomp_text = inr text' →
  mapping !! (m1 +:+ m2) = None →
  process_pairs mapping wat_dir before = (before', inr tt) →
  process_pairs mapping wat_dir (before ++ (name, decomp_file) :: after)
  = (before' ++ (name, decomp_file) :: after,
     inl (SystemExit
              ("mapping not found for " +:+ (m1 +:+ m2) +:+ " (file "
               +:+ name +:+ ")")))
  ∧ (∀ dir dir' r,
       (name, decomp_file) ∈ dir →
       process_pairs mapping wat_dir dir = (dir', r) →
       (name, decomp_file) ∈ dir' ∧ ∃ e, r = inl e).
Proof.
  intros decomp_text wat_text Hwat Hlen Hzip Hearlier Hmiss Hb.
  assert (Hfile : process_file mapping wat_dir name decomp_file
                  = inl (mapping_not_found (m1 +:+ m2) name)).
  { subst decomp_text wat_text. unfold process_file. rewrite Hwat. cbv zeta.
    apply Nat.eqb_eq in Hlen as ->.
    rewrite Hzip, rewrite_imports_app, Hearlier.
    cbn [rewrite_imports]. by rewrite Hmiss. }
  split; [by apply process_pairs_abort|].
  intros dir dir' r.
  by apply (process_pairs_failing _ _ _ _ _ _ Hfile).
Qed.

End Reconciler.

(** ** The pipeline *)

Section PipelineFacts.

Variable urlopen : string -> option descriptor.
Variable wasm_decompile : string -> string * bool.
Variable listdir : list (string * string) -> list (string * string).

(** C6, as amended.  A function entry that lacks its export alias or its
    name, in a module whose export alias is present and not empty, makes
    the builder raise "function entry missing export or name"; the run
    ends there, before the decompiler is started, and the output
    directory is as it was. *)
Theorem missing_field_aborts_before_output w env md mod_exp fn :
  urlopen (fetch_url env_url) = Some env →
  md ∈ default [] (modules env) →
  mod_export md = Some mod_exp →
  mod_exp ≠ "" →
  fn ∈ default [] (mod_functions md) →
  fn_export fn = None ∨ fn_name fn = None →
  build_map env = inl (SystemExit "function entry missing export or name")
  ∧ main urlopen wasm_decompile listdir w
    = (w, inl (SystemExit "function entry missing export or name")).
Proof.
  intros Hurl Hmd Hexp Hne Hfn Hnone.
  assert (Hb : build_map env = inl missing_field).
  { apply build_map_fails_iff. exists md, fn. split_and!; try done.
    unfold mod_alias. rewrite Hexp. destruct mod_exp; [done|by eexists]. }
  split; [done|].
  unfold main, fetch_json. by rewrite Hurl, Hb.
Qed.

End PipelineFacts.

Lemma count_mismatch_aborts_witness :
  let wat_dir : gmap string string := {[ "c" := "(module)" ]} in
  let decomp_file := "import function l_1(a:long):long;" in
  wat_dir !! "c" = Some "(module)" ∧
  length (extract_decomp_imports (read_text decomp_file))
    ≠ length (extract_wat_imports (read_text "(module)")) ∧
  process_pairs ∅ wat_dir [] = ([], inr tt) ∧
  process_pairs ∅ wat_dir ([] ++ ("c", decomp_file) :: [])
  = ([] ++ ("c", decomp_file) :: [],
     inl (SystemExit "import count mismatch in c: decomp=1 wat=0")).
Proof.
  split; [reflexivity|]. split; [vm_compute; lia|]. split; [reflexivity|].
  refine (proj1 (count_mismatch_aborts ∅ {[ "c" := "(module)" ]} "c"
                   "import function l_1(a:long):long;" "(module)" [] [] []
                   _ _ _)).
  - reflexivity.
  - vm_compute; lia.
  - reflexivity.
Defined.

Lemma mapping_miss_aborts_witness :
  let mapping : gmap string string := {[ "v1" := "read_contract_data" ]} in
  let wat_file := wat_import "v" "1" +:+ " " +:+ wat_import "v" "2" in
  let wat_dir : gmap string string := {[ "c" := wat_file ]} in
  let decomp_file := "import function l_1(a:long); import function l_2();" in
  wat_dir !! "c" = Some wat_file ∧
  length (extract_decomp_imports (read_text decomp_file))
    = length (extract_wat_imports (read_text wat_file)) ∧
  zip (extract_decomp_imports (read_text decomp_file))
    (extract_wat_imports (read_text wat_file))
    = [("l_1", ("v", "1"))] ++ ("l_2", ("v", "2")) :: [] ∧
  rewrite_imports mapping "c" [("l_1", ("v", "1"))] (read_text decomp_file)
    = inr "import function read_contract_data(a:long); import function l_2();" ∧
  mapping !! ("v" +:+ "2") = None ∧
  process_pairs mapping wat_dir [] = ([], inr tt) ∧
  process_pairs mapping wat_dir ([] ++ ("c", decomp_file) :: [])
  = ([] ++ ("c", decomp_file) :: [],
     inl (SystemExit "mapping not found for v2 (file c)")).
Proof.
  repeat (split; [reflexivity|]).
  refine (proj1 (mapping_miss_aborts {[ "v1" := "read_contract_data" ]}
    {[ "c" := wat_import "v" "1" +:+ " " +:+ wat_import "v" "2" ]}
    "c" "import function l_1(a:long); import function l_2();"
    (wat_import "v" "1" +:+ " " +:+ wat_import "v" "2")
    [("l_1", ("v", "1"))] "l_2" "v" "2" []
    "import function read_contract_data(a:long); import function l_2();"
    [] [] [] _ _ _ _ _ _)); reflexivity.
Defined.

Lemma missing_field_aborts_before_output_witness :
  let fn := FunctionEntry (Some "1") None in
  let md := ModuleEntry (Some "v") (Some [fn]) in
  let env := Descriptor (Some [md]) in
  let urlopen := λ _ : string, Some env in
  let wasm_decompile := λ wasm : string, (wasm, true) in
  let listdir := λ dir : list (string * string), dir in
  let w := World [("c", "wasm")] ∅ [] in
  urlopen (fetch_url env_url) = Some env ∧
  md ∈ default [] (modules env) ∧
  mod_export md = Some "v" ∧
  "v" ≠ "" ∧
  fn ∈ default [] (mod_functions md) ∧
  (fn_export fn = None ∨ fn_name fn = None) ∧
  build_map env = inl (SystemExit "function entry missing export or name")
  ∧ main urlopen wasm_decompile listdir w
    = (w, inl (SystemExit "function entry missing export or name")).
Proof.
  split; [reflexivity|]. split; [apply list_elem_of_here|].
  split; [reflexivity|]. split; [discriminate|].
  split; [apply list_elem_of_here|]. split; [right; reflexivity|].
  apply (missing_field_aborts_before_output
           (λ _ : string, Some (Descriptor (Some
              [ModuleEntry (Some "v") (Some [FunctionEntry (Some "1") None])])))
           (λ wasm : string, (wasm, true))
           (λ dir : list (string * string), dir)
           (World [("c", "wasm")] ∅ [])
           (Descriptor (Some
              [ModuleEntry (Some "v") (Some [FunctionEntry (Some "1") None])]))
           (ModuleEntry (Some "v") (Some [FunctionEntry (Some "1") None]))
           "v" (FunctionEntry (Some "1") None)).
  - reflexivity.
  - apply list_elem_of_here.
  - reflexivity.
  - discriminate.
  - apply list_elem_of_here.
  - right; reflexivity.
Defined.

(** A module whose export alias is present and empty, with a function
    entry that has neither field: the builder skips the module, returns
    the empty table, and the run goes on to decompile. *)
Lemma missing_field_in_skipped_module :
  let fn := FunctionEntry None None in
  let md := ModuleEntry (Some "") (Some [fn]) in
  let env := Descriptor (Some [md]) in
  let w := World [("c", "wasm")] {[ "c" := "(module)" ]} [] in
  default [] (modules env) = [md] ∧
  mod_export md = Some "" ∧
  default [] (mod_functions md) = [fn] ∧
  fn_export fn = None ∧ fn_name fn = None ∧
  build_map env = inr ∅ ∧
  main (λ _, Some env) (λ wasm, ("// " +:+ wasm, true)) (λ dir, dir) w
  = (World [("c", "wasm")] {[ "c" := "(module)" ]} [("c", "// wasm")],
     inr tt).
Proof. repeat split; vm_compute; reflexivity. Qed.

(** ** Characters *)

Section Characters.

Implicit Types (c : ascii) (s : string).

Lemma ident_char_not_space c : is_ident_char c = true → is_space c = false.
Proof. destruct c as [[] [] [] [] [] [] [] []]; by vm_compute. Qed.

Lemma ident_char_plain c : is_ident_char c = true → is_plain c = true.
Proof. destruct c as [[] [] [] [] [] [] [] []]; by vm_compute. Qed.

Lemma plain_not_space c : is_plain c = true → Ascii.eqb " " c = false.
Proof.
  unfold is_plain. rewrite Ascii.eqb_sym.
  by intros [->%negb_true_iff _]%andb_true_iff.
Qed.

Lemma plain_not_paren c : is_plain c = true → Ascii.eqb "(" c = false.
Proof.
  unfold is_plain. rewrite (Ascii.eqb_sym "(" c).
  by intros [_ ->%negb_true_iff]%andb_true_iff.
Qed.

Lemma all_cons p c s : Str.all p (String c s) = p c && Str.all p s.
Proof. done. Qed.

Lemma all_impl (p q : ascii → bool) s :
  (∀ c, p c = true → q c = true) → Str.all p s = true → Str.all q s = true.
Proof.
  intros Hpq. induction s as [|c s IH]; [done|].
  rewrite !all_cons. intros [Hc Hs]%andb_true_iff.
  by rewrite (Hpq _ Hc), IH.
Qed.

Lemma identifier_all s : is_identifier s = true → Str.all is_ident_char s = true.
Proof. by destruct s. Qed.

Lemma identifier_plain s : is_identifier s = true → Str.all is_plain s = true.
Proof. intros H%identifier_all. eapply all_impl, H. apply ident_char_plain. Qed.

End Characters.

(** ** Substrings of the form [" name("] *)

Section Patterns.

Implicit Types (a y w u s t rest seg : string) (c d : ascii).

Lemma old_pat_cons a : old_pat a = String " " (a +:+ "(").
Proof. done. Qed.

(** A name followed by a parenthesis does not match a word followed by a
    space. *)
Lemma plain_paren_stop a w u :
  Str.all is_plain a = true → Str.all is_plain w = true →
  Str.startswith (a +:+ "(") (w +:+ String " " u) = false.
Proof.
  revert w. induction a as [|e a IH]; intros [|d w];
    cbn [Str.startswith String.append Str.all]; rewrite ?andb_true_iff.
  - done.
  - intros _ [Hd _]. by rewrite (plain_not_paren d).
  - intros [He _] _. rewrite Ascii.eqb_sym. by rewrite (plain_not_space e).
  - intros [_ Ha] [_ Hw]. rewrite IH by done. apply andb_false_r.
Qed.

(** Two names followed by a parenthesis match only when they are equal. *)
Lemma plain_paren_eq a y u :
  Str.all is_plain a = true → Str.all is_plain y = true →
  Str.startswith (a +:+ "(") (y +:+ String "(" u) = true → a = y.
Proof.
  revert y. induction a as [|e a IH]; intros [|d y];
    cbn [Str.startswith String.append Str.all]; rewrite ?andb_true_iff.
  - done.
  - intros _ [Hd _] [Hp _]. by rewrite (plain_not_paren d) in Hp.
  - intros [He _] _ [Hp _].
    by rewrite Ascii.eqb_sym, (plain_not_paren e) in Hp.
  - intros [_ Ha] [_ Hy] [->%Ascii.eqb_eq Hs]. f_equal. by apply IH.
Qed.

(** A stretch without spaces is copied by the scan for [" name("]. *)
Lemma replace_go_pass_word o new w rest :
  Str.all (λ c, negb (Ascii.eqb " " c)) w = true →
  Str.replace_go (String " " o) new 0 (w +:+ rest)
  = w +:+ Str.replace_go (String " " o) new 0 rest.
Proof.
  induction w as [|c w IH]; [done|].
  rewrite all_cons. intros [Hc Hw]%andb_true_iff.
  change (String c w +:+ rest) with (String c (w +:+ rest)).
  rewrite replace_go_miss.
  - by rewrite IH.
  - cbn [Str.startswith]. by apply negb_true_iff in Hc as ->.
Qed.

Lemma plain_no_space w :
  Str.all is_plain w = true →
  Str.all (λ c, negb (Ascii.eqb " " c)) w = true.
Proof.
  apply all_impl. intros c Hc. by rewrite (plain_not_space c).
Qed.

Lemma decl_app y rest :
  decl y +:+ rest
  = "import" +:+ String " " ("function" +:+ String " " (y +:+ String "(" rest)).
Proof. unfold decl. by rewrite !app_assoc. Qed.

(** The scan for [" a("] copies the head of the declaration of another
    identifier. *)
Lemma replace_go_decl_other a y new rest :
  Str.all is_plain a = true → Str.all is_plain y = true → a ≠ y →
  Str.replace_go (old_pat a) new 0 (decl y +:+ rest)
  = decl y +:+ Str.replace_go (old_pat a) new 0 rest.
Proof.
  intros Ha Hy Hne. rewrite !decl_app, old_pat_cons.
  rewrite replace_go_pass_word by done.
  rewrite replace_go_miss.
  2:{ cbn [Str.startswith]. rewrite plain_paren_stop by done.
      apply andb_false_r. }
  rewrite replace_go_pass_word by done.
  rewrite replace_go_miss.
  2:{ cbn [Str.startswith].
      destruct (Str.startswith (a +:+ "(") (y +:+ String "(" rest)) eqn:Hs;
        [|apply andb_false_r].
      by apply plain_paren_eq in Hs. }
  rewrite replace_go_pass_word by by apply plain_no_space.
  by rewrite replace_go_miss by done.
Qed.

(** The scan for [" a("] renames the declaration of [a]. *)
Lemma replace_go_decl_same a n rest :
  Str.all is_plain a = true →
  Str.replace_go (old_pat a) (old_pat n) 0 (decl a +:+ rest)
  = decl n +:+ Str.replace_go (old_pat a) (old_pat n) 0 rest.
Proof.
  intros Ha. rewrite !decl_app.
  rewrite (old_pat_cons a) at 1. rewrite replace_go_pass_word by done.
  rewrite replace_go_miss.
  2:{ cbn [Str.startswith]. rewrite plain_paren_stop by done.
      apply andb_false_r. }
  rewrite replace_go_pass_word by done.
  replace (String " " (a +:+ String "(" rest))
    with (String " " (a +:+ "(") +:+ rest)
    by (cbn [String.append]; by rewrite app_assoc).
  rewrite replace_go_hit. rewrite <- old_pat_cons.
  unfold old_pat at 1. by rewrite !app_assoc.
Qed.


Lemma at_decl_body idents segs : at_decl (body idents segs).
Proof. destruct idents, segs; first [by left|by right]. Qed.

(** A name and its parenthesis do not reach from a stretch of text into
    the keywords that follow it. *)
Lemma startswith_not_across a seg rest :
  Str.all is_plain a = true → at_decl rest →
  Str.startswith (a +:+ "(") seg = false →
  Str.startswith (a +:+ "(") (seg +:+ rest) = false.
Proof.
  intros Ha [->|Hrest]; [by rewrite app_nil_r|].
  assert (Hstop : ∀ a', Str.all is_plain a' = true →
                        Str.startswith (a' +:+ "(") rest = false).
  { intros a' Ha'. apply startswith_inv in Hrest. rewrite Hrest.
    apply (plain_paren_stop a' "import"); done. }
  clear Hrest. revert seg Ha. induction a as [|e a IH]; intros [|d seg] Ha;
    cbn [Str.startswith String.append]; try done.
  - intros _. by apply (Hstop "").
  - intros _. by apply (Hstop (String e a)).
  - rewrite all_cons in Ha. apply andb_true_iff in Ha as [_ Ha].
    intros [->|Hs]%andb_false_iff; [done|].
    rewrite (IH seg) by done. apply andb_false_r.
Qed.

Lemma drop_app p t : Str.drop (String.length p) (p +:+ t) = t.
Proof. induction p as [|c p IH]; [by destruct t|done]. Qed.

(** The scan for [" a("] works on a stretch of text and on what follows it
    independently: no occurrence starts in the stretch and ends in the
    keywords of the next declaration. *)
Lemma replace_go_split a new seg rest :
  Str.all is_plain a = true → at_decl rest →
  Str.replace_go (old_pat a) new 0 (seg +:+ rest)
  = Str.replace_go (old_pat a) new 0 seg
    +:+ Str.replace_go (old_pat a) new 0 rest.
Proof.
  intros Ha Hrest. remember (String.length seg) as k eqn:Hk. revert seg Hk.
  induction k as [k IH] using lt_wf_ind. intros seg ->.
  destruct seg as [|c seg]; [done|].
  rewrite old_pat_cons in IH |- *.
  rewrite (replace_go_unfold " " (a +:+ "(") new (String c seg)).
  rewrite (replace_go_unfold " " (a +:+ "(") new (String c seg +:+ rest)).
  destruct (Str.startswith (String " " (a +:+ "(")) (String c seg)) eqn:Hs.
  - pose proof (startswith_inv _ _ Hs) as Hinv.
    remember (Str.drop (String.length (String " " (a +:+ "("))) (String c seg))
      as r eqn:Hr.
    rewrite Hinv, !app_assoc, startswith_app, drop_app.
    rewrite (IH (String.length r)); [done| |done].
    rewrite Hinv, app_length. cbn [String.length]. lia.
  - cbn [Str.startswith String.append] in Hs |- *.
    assert (Hmiss : Ascii.eqb " " c
                    && Str.startswith (a +:+ "(") (seg +:+ rest) = false).
    { apply andb_false_iff in Hs as [->|Hs]; [done|].
      rewrite startswith_not_across by done. apply andb_false_r. }
    rewrite Hmiss. f_equal. apply (IH (String.length seg)); [|done].
    cbn [String.length]. lia.
Qed.

(** Replacing a string by itself changes nothing. *)
Lemma replace_go_same c o t :
  Str.replace_go (String c o) (String c o) 0 t = t.
Proof.
  remember (String.length t) as k eqn:Hk. revert t Hk.
  induction k as [k IH] using lt_wf_ind. intros t ->.
  rewrite replace_go_unfold.
  destruct (Str.startswith (String c o) t) eqn:Hs.
  - pose proof (startswith_inv _ _ Hs) as Hinv.
    remember (Str.drop (String.length (String c o)) t) as r eqn:Hr.
    rewrite (IH (String.length r)); [done| |done].
    rewrite Hinv, app_length. cbn [String.length]. lia.
  - destruct t as [|d t]; [done|]. f_equal.
    apply (IH (String.length t)); [|done]. cbn [String.length]. lia.
Qed.

(** *** One substitution on a file *)


Lemma replace_body a n idents segs :
  Str.all is_plain a = true →
  Forall (λ y, Str.all is_plain y = true) idents →
  Str.replace_go (old_pat a) (old_pat n) 0 (body idents segs)
  = body (map (rename a n) idents)
         (map (Str.replace (old_pat a) (old_pat n)) segs).
Proof.
  intros Ha Hall. revert segs.
  induction Hall as [|y idents Hy _ IH]; intros [|seg segs]; try done.
  cbn [body map]. unfold rename at 1.
  destruct (String.eqb_spec y a) as [->|Hne].
  - rewrite replace_go_decl_same by done.
    rewrite replace_go_split by auto using at_decl_body. by rewrite IH.
  - rewrite replace_go_decl_other by done.
    rewrite replace_go_split by auto using at_decl_body. by rewrite IH.
Qed.

Lemma contains_decl a pre rest :
  Str.contains (old_pat a) (pre +:+ decl a +:+ rest) = true.
Proof.
  apply contains_app_r.
  replace (decl a +:+ rest) with ("import function" +:+ old_pat a +:+ rest)
    by (unfold decl, old_pat; by rewrite !app_assoc).
  apply contains_middle.
Qed.

Lemma contains_body a pre idents segs :
  a ∈ idents → length idents = length segs →
  Str.contains (old_pat a) (pre +:+ body idents segs) = true.
Proof.
  intros Hin. revert pre segs.
  induction Hin as [a idents|a y idents _ IH]; intros pre [|seg segs] Hlen;
    try done; cbn [body].
  - apply contains_decl.
  - rewrite <- !app_assoc. apply IH. by injection Hlen.
Qed.

Lemma existsb_eqb_false x (l : list string) :
  existsb (String.eqb x) l = false → ∀ y, y ∈ l → x ≠ y.
Proof.
  intros Hex y Hy ->.
  assert (existsb (String.eqb y) l = true); [|congruence].
  apply existsb_exists. exists y. split; [by apply list_elem_of_In|].
  apply String.eqb_refl.
Qed.

Lemma map_rename_other a n (l : list string) :
  (∀ y, y ∈ l → y ≠ a) → map (rename a n) l = l.
Proof.
  induction l as [|y l IH]; intros Hl; [done|]. cbn [map].
  rewrite IH by (intros; apply Hl; by right). unfold rename.
  destruct (String.eqb_spec y a) as [->|]; [|done].
  by destruct (Hl a); [left|].
Qed.

(** *** The loop of substitutions on a file *)

Section Rewrite.

Variables (mapping : gmap string string) (name : string).




Lemma rewrite_imports_body todo s0 idents segs :
  length idents = length segs →
  Forall (λ y, Str.all is_plain y = true) idents →
  runs mapping todo idents →
  rewrite_imports mapping name (map pair_of todo) (s0 +:+ body idents segs)
  = inr (sweep todo s0
         +:+ body (map (renames todo) idents) (map (sweep todo) segs)).
Proof.
  revert s0 idents segs.
  induction todo as [|e todo IH]; intros s0 idents segs Hlen Hplain Hruns.
  - cbn. by rewrite !map_id.
  - destruct Hruns as (Hin & Ha & Hn & Hlook & Hruns).
    cbn [map pair_of rewrite_imports]. rewrite Hlook.
    rewrite contains_body by done.
    change (Str.replace (old_pat (it_ident e)) ?n ?t)
      with (Str.replace_go (old_pat (it_ident e)) n 0 t).
    rewrite replace_go_split by auto using at_decl_body.
    rewrite replace_body by done.
    rewrite IH; [|by rewrite !length_map| |done].
    + by rewrite !map_map.
    + apply Forall_forall. intros y [x [-> Hx]]%list_elem_of_fmap.
      unfold rename. destruct (String.eqb x (it_ident e)); [done|].
      rewrite Forall_forall in Hplain. by apply Hplain.
Qed.

(** With pairwise distinct identifiers and chain-free names, every pair
    finds its identifier, and the identifiers end as the names. *)
Lemma runs_standard todo pre :
  Forall (λ e, Str.all is_plain (it_ident e) = true) todo →
  Forall (λ e, Str.all is_plain (it_name e) = true) todo →
  Forall (λ e, mapping !! (it_module e +:+ it_field e) = Some (it_name e))
    todo →
  distinct (map it_ident todo) = true →
  chain_free (map it_name todo) (map it_ident todo) = true →
  (∀ x, x ∈ pre → x ∉ map it_ident todo) →
  runs mapping todo (pre ++ map it_ident todo) ∧
  map (renames todo) (pre ++ map it_ident todo) = pre ++ map it_name todo.
Proof.
  revert pre. induction todo as [|e todo IH];
    intros pre Hplain Hnames Hcov Hdist Hchain Hpre.
  - split; [done|]. cbn. by rewrite map_id.
  - apply Forall_cons in Hplain as [Ha Hplain].
    apply Forall_cons in Hnames as [Hn Hnames].
    apply Forall_cons in Hcov as [Hlook Hcov].
    cbn [map distinct chain_free] in Hdist, Hchain, Hpre |- *.
    apply andb_true_iff in Hdist as [Hfresh%negb_true_iff Hdist].
    apply andb_true_iff in Hchain as [Hnew%negb_true_iff Hchain].
    assert (Hstep : map (rename (it_ident e) (it_name e))
                      (pre ++ it_ident e :: map it_ident todo)
                    = (pre ++ [it_name e]) ++ map it_ident todo).
    { rewrite map_app. cbn [map]. rewrite !map_rename_other.
      - unfold rename. rewrite String.eqb_refl. by rewrite <- List.app_assoc.
      - intros y Hy Heq. by apply (existsb_eqb_false _ _ Hfresh y Hy).
      - intros y Hy Heq. apply (Hpre _ Hy). rewrite Heq. by left. }
    destruct (IH (pre ++ [it_name e])) as [Hruns Hmap]; try done.
    { intros x [Hx|Hx%list_elem_of_singleton]%elem_of_app Hin.
      - apply (Hpre _ Hx). by right.
      - subst x. by apply (existsb_eqb_false _ _ Hnew (it_name e)). }
    split.
    + cbn [runs]. split_and!; try done.
      * apply elem_of_app. right. by left.
      * by rewrite Hstep.
    + change (map (renames (e :: todo)) ?l)
        with (map (λ x, renames todo (rename (it_ident e) (it_name e) x)) l).
      rewrite <- (map_map (rename (it_ident e) (it_name e)) (renames todo)).
      rewrite Hstep, Hmap. by rewrite <- List.app_assoc.
Qed.

End Rewrite.

End Patterns.

(** ** The import identifiers of a file in the decompiler's form *)

Section Extraction.

Implicit Types (s t u rest seg y : string) (c : ascii) (prev : option ascii).

Lemma strip_prefix_None p s :
  Str.startswith p s = false → Str.strip_prefix p s = None.
Proof.
  revert s. induction p as [|a p IH]; intros [|b s];
    cbn [Str.startswith Str.strip_prefix]; try done.
  destruct (Ascii.eqb a b); [apply IH|done].
Qed.

Lemma strip_prefix_app p t : Str.strip_prefix p (p +:+ t) = Some t.
Proof.
  induction p as [|a p IH]; [done|].
  cbn [String.append Str.strip_prefix]. by rewrite Ascii.eqb_refl.
Qed.

(** The keywords overlap themselves nowhere: they do not start in a
    stretch of text and end in the keywords that follow it. *)
Lemma keywords_not_across s rest :
  s ≠ "" → at_decl rest →
  Str.startswith "import function" s = false →
  Str.startswith "import function" (s +:+ rest) = false.
Proof.
  intros Hne [->|Hrest]; [by rewrite app_nil_r|].
  apply startswith_inv in Hrest. rewrite Hrest. clear Hrest.
  set (r := Str.drop _ rest). clearbody r. clear rest. intros Hs.
  do 15 (destruct s as [|? s];
         [first [done|cbn; by rewrite ?andb_false_r]|]).
  cbn [Str.startswith String.append] in Hs |- *. exact Hs.
Qed.

Lemma match_decomp_import_None prev s :
  Str.startswith "import function" s = false →
  match_decomp_import prev s = None.
Proof.
  intros Hs. unfold match_decomp_import.
  rewrite (strip_prefix_None _ _ Hs). by destruct (negb _).
Qed.


Lemma last_cons c s : is_Some (Str.last (String c s)).
Proof.
  revert c. induction s as [|d s IH]; intros c; [by eexists|apply (IH d)].
Qed.

Lemma after_cons prev c seg : after prev (String c seg) = after (Some c) seg.
Proof.
  unfold after. destruct seg as [|d seg]; [done|].
  change (Str.last (String c (String d seg))) with (Str.last (String d seg)).
  by destruct (last_cons d seg) as [x ->].
Qed.

(** No declaration is found in a stretch of text without the keywords. *)
Lemma findall_go_quiet prev seg rest :
  at_decl rest →
  Str.contains "import function" seg = false →
  findall_go match_decomp_import prev 0 (seg +:+ rest)
  = findall_go match_decomp_import (after prev seg) 0 rest.
Proof.
  intros Hrest. revert prev. induction seg as [|c seg IH]; intros prev; [done|].
  rewrite contains_cons. intros [Hhere Hlater]%orb_false_iff.
  rewrite after_cons, <- IH by done.
  change (String c seg +:+ rest) with (String c (seg +:+ rest)).
  cbn [findall_go].
  change (String c (seg +:+ rest)) with (String c seg +:+ rest).
  by rewrite match_decomp_import_None by by apply keywords_not_across.
Qed.

Lemma span_ident y rest :
  Str.all is_ident_char y = true →
  Str.span is_ident_char (y +:+ String "(" rest) = (y, String "(" rest).
Proof.
  induction y as [|c y IH]; [done|].
  rewrite all_cons. intros [Hc Hy]%andb_true_iff.
  cbn [String.append Str.span]. by rewrite Hc, IH.
Qed.

Lemma span_space_ident y rest :
  is_identifier y = true →
  Str.span is_space (y +:+ rest) = ("", y +:+ rest).
Proof.
  destruct y as [|c y]; [done|]. cbn [is_identifier]. rewrite all_cons.
  intros [Hc _]%andb_true_iff. cbn [String.append Str.span].
  by rewrite (ident_char_not_space c).
Qed.

(** The pattern matches the head of a declaration that does not follow a
    word character. *)
Lemma match_decomp_import_decl prev y rest :
  from_option is_word_char false prev = false →
  is_identifier y = true →
  match_decomp_import prev (decl y +:+ rest)
  = Some (y, 15 + 1 + String.length y + 0 + 1).
Proof.
  intros Hprev Hy. unfold match_decomp_import, word_boundary. rewrite Hprev.
  unfold decl. rewrite !app_assoc.
  change ("import function " +:+ ?t)
    with ("import function" +:+ String " " t).
  rewrite strip_prefix_app.
  change (Str.span is_space (String " " ?t))
    with (let '(a, b) := Str.span is_space t in (String " " a, b)).
  rewrite span_space_ident by done.
  cbn [String.append]. rewrite span_ident by by apply identifier_all.
  destruct y as [|c y]; [done|]. done.
Qed.

Lemma findall_go_skip {A} (m : option ascii → string → option (A * nat))
    prev u c rest :
  findall_go m prev (S (String.length u)) (u +:+ String c rest)
  = findall_go m (Some c) 0 rest.
Proof. revert prev. induction u as [|d u IH]; intros prev; [done|apply IH]. Qed.

(** After a match, the search resumes behind its last character. *)
Lemma findall_go_match {A} (m : option ascii → string → option (A * nat))
    prev c s v len u d rest :
  m prev (String c s) = Some (v, len) →
  s = u +:+ String d rest →
  len = S (S (String.length u)) →
  findall_go m prev 0 (String c s) = v :: findall_go m (Some d) 0 rest.
Proof.
  intros Hm -> ->. cbn [findall_go]. rewrite Hm. f_equal.
  rewrite <- (findall_go_skip m (Some c) u d rest). f_equal; lia.
Qed.

Lemma decl_cons y rest :
  decl y +:+ rest = String "i" (("mport function " +:+ y) +:+ String "(" rest).
Proof. unfold decl. by rewrite !app_assoc. Qed.

Lemma findall_go_decl prev y rest :
  from_option is_word_char false prev = false →
  is_identifier y = true →
  findall_go match_decomp_import prev 0 (decl y +:+ rest)
  = y :: findall_go match_decomp_import (Some "("%char) 0 rest.
Proof.
  intros Hprev Hy.
  pose proof (match_decomp_import_decl prev y rest Hprev Hy) as Hm.
  rewrite decl_cons in Hm |- *.
  apply (findall_go_match _ _ _ _ _ _ _ _ _ Hm eq_refl).
  rewrite app_length. cbn [String.length]. lia.
Qed.

(** The import identifiers of a file are those of its declarations, in
    order. *)
Lemma findall_go_body idents segs prev seg :
  length idents = length segs →
  Str.contains "import function" seg = false →
  from_option is_word_char false (after prev seg) = false →
  Forall (λ y, is_identifier y = true) idents →
  Forall (λ t, quiet t = true) segs →
  findall_go match_decomp_import prev 0 (seg +:+ body idents segs) = idents.
Proof.
  intros Hlen Hseg Hprev Hids. revert segs prev seg Hlen Hseg Hprev.
  induction Hids as [|y idents Hy _ IH];
    intros [|t segs] prev seg Hlen Hseg Hprev Hsegs; try done.
  - by rewrite findall_go_quiet by (done || by left).
  - apply Forall_cons in Hsegs as [Ht Hsegs].
    unfold quiet in Ht. rewrite andb_true_iff, !negb_true_iff in Ht.
    destruct Ht as [Hkw Hlast].
    rewrite findall_go_quiet by (done || apply at_decl_body).
    cbn [body]. rewrite findall_go_decl by done. f_equal.
    apply IH; [by injection Hlen|done| |done]. unfold after.
    by destruct (Str.last t).
Qed.

End Extraction.

(** ** Reconciliation of a file in the decompiler's form *)

Section Document.

Variables (mapping : gmap string string) (wat_dir : gmap string string).

Lemma zip_pair_of items :
  zip (map it_ident items) (map (λ e, (it_module e, it_field e)) items)
  = map pair_of items.
Proof.
  induction items as [|e items IH]; [done|].
  cbn [map zip zip_with pair_of]. by rewrite IH.
Qed.

(** A file in the decompiler's form, with a reference disassembly that
    lists its imports and a naming table that has their names, is rewritten
    to the same file with every import identifier replaced by its
    canonical name and the substitutions applied to the text around the
    declarations. *)
Lemma reconcile_document name decomp_file wat_file s0 items :
  wat_dir !! name = Some wat_file →
  read_text decomp_file = s0 +:+ decls_old items →
  extract_wat_imports (read_text wat_file)
  = map (λ e, (it_module e, it_field e)) items →
  covered mapping items = true →
  standard_form s0 items = true →
  process_file mapping wat_dir name decomp_file
  = inr (sweep items s0 +:+ decls_new items).
Proof.
  intros Hwat Hread Hpairs Hcov Hstd.
  unfold standard_form in Hstd. rewrite !andb_true_iff in Hstd.
  destruct Hstd as [[[[[Hid Hdist] Hs0] Hsegs] Hnames] Hchain].
  rewrite forallb_forall in Hid, Hsegs, Hnames.
  unfold quiet in Hs0. rewrite andb_true_iff, !negb_true_iff in Hs0.
  destruct Hs0 as [Hkw0 Hlast0].
  assert (Hident : Forall (λ y, is_identifier y = true) (map it_ident items)).
  { apply Forall_forall. intros y Hy. by apply Hid, list_elem_of_In. }
  assert (Hextract : extract_decomp_imports (s0 +:+ decls_old items)
                     = map it_ident items).
  { apply findall_go_body; [by rewrite !length_map|done| |done|].
    - unfold after. by destruct (Str.last s0).
    - apply Forall_forall. intros t [e [-> He]]%list_elem_of_fmap.
      by apply Hsegs, list_elem_of_In. }
  destruct (runs_standard mapping items []) as [Hruns Hmap]; try done.
  { apply Forall_forall. intros e He. apply identifier_plain.
    rewrite Forall_forall in Hident. apply Hident, list_elem_of_fmap. eauto. }
  { apply Forall_forall. intros e He. by apply Hnames, list_elem_of_In. }
  { unfold covered in Hcov. rewrite forallb_forall in Hcov.
    apply Forall_forall. intros e He.
    apply list_elem_of_In, Hcov in He. by apply bool_decide_eq_true in He. }
  { intros x Hx. by apply elem_of_nil in Hx. }
  cbn [app] in Hruns, Hmap.
  unfold process_file. rewrite Hwat. cbv zeta.
  rewrite Hread, Hextract, Hpairs.
  rewrite !length_map, Nat.eqb_refl, zip_pair_of.
  unfold decls_old. rewrite rewrite_imports_body; try done.
  - unfold decls_new. by rewrite Hmap, map_map.
  - by rewrite !length_map.
  - eapply Forall_impl; [exact Hident|]. intros y. apply identifier_plain.
Qed.

Lemma decls_old_renamed items : decls_old (renamed items) = decls_new items.
Proof. unfold decls_old, decls_new, renamed. by rewrite !map_map. Qed.

(** The substitutions of a second run put every name in its own place. *)
Lemma sweep_renamed items0 items t : sweep (map (λ e,
    ImportItem (it_name e) (sweep items0 (it_after e)) (it_module e)
      (it_field e) (it_name e)) items) t = t.
Proof.
  revert t. induction items as [|e items IH]; intros t; [done|].
  cbn [map sweep foldl it_ident it_name]. rewrite old_pat_cons.
  change (Str.replace (String " " ?o) ?n ?u)
    with (Str.replace_go (String " " o) n 0 u).
  rewrite replace_go_same. apply IH.
Qed.

Lemma decls_new_renamed items : decls_new (renamed items) = decls_new items.
Proof.
  unfold decls_new, renamed at 1 3. rewrite !map_map. cbn [it_name it_after].
  f_equal. apply map_ext. intros e. apply sweep_renamed.
Qed.

Lemma covered_renamed items :
  covered mapping items = true → covered mapping (renamed items) = true.
Proof.
  unfold covered, renamed. rewrite !forallb_forall.
  intros H e [e0 [<- He0]]%in_map_iff. by apply (H e0).
Qed.

Lemma extract_wat_renamed items :
  map (λ e, (it_module e, it_field e)) (renamed items)
  = map (λ e, (it_module e, it_field e)) items.
Proof. unfold renamed. by rewrite map_map. Qed.

Lemma no_cr_identifier y : is_identifier y = true → no_cr y = true.
Proof.
  intros Hy%identifier_all. eapply all_impl, Hy.
  intros c Hc. by destruct c as [[] [] [] [] [] [] [] []].
Qed.

Lemma no_cr_decl y : no_cr (decl y) = no_cr y.
Proof.
  unfold decl. rewrite !no_cr_app.
  change (no_cr "import function ") with true.
  change (no_cr "(") with true. by rewrite andb_true_r.
Qed.

Lemma no_cr_body idents segs :
  length idents = length segs →
  no_cr (body idents segs) = true ↔
  Forall (λ y, no_cr y = true) idents ∧ Forall (λ t, no_cr t = true) segs.
Proof.
  revert segs. induction idents as [|y idents IH]; intros [|t segs] Hlen;
    try done.
  cbn [body]. rewrite !no_cr_app, no_cr_decl, !andb_true_iff.
  rewrite (IH segs) by by injection Hlen. rewrite !Forall_cons. tauto.
Qed.

Lemma no_cr_sweep items0 t :
  Forall (λ e, no_cr (it_name e) = true) items0 →
  no_cr t = true → no_cr (sweep items0 t) = true.
Proof.
  unfold sweep. intros Hnames. revert t.
  induction Hnames as [|e items0 He _ IH]; intros t Ht; [done|].
  cbn [foldl]. apply IH. rewrite !old_pat_cons.
  apply no_cr_replace_go; [|done].
  change (String " " (it_name e +:+ "(")) with (" " +:+ it_name e +:+ "(").
  by rewrite !no_cr_app, He.
Qed.

(** What a run writes for a file in the decompiler's form holds no
    carriage return when the canonical names hold none. *)
Lemma no_cr_reconciled decomp_file s0 items :
  read_text decomp_file = s0 +:+ decls_old items →
  Forall (λ e, no_cr (it_name e) = true) items →
  no_cr (sweep items s0 +:+ decls_new items) = true.
Proof.
  intros Hread Hnames.
  pose proof (read_text_no_cr decomp_file) as Hno.
  rewrite Hread, no_cr_app in Hno. apply andb_true_iff in Hno as [Hs0 Hold].
  unfold decls_old in Hold. apply no_cr_body in Hold as [_ Hsegs];
    [|by rewrite !length_map].
  rewrite no_cr_app. apply andb_true_iff. split; [by apply no_cr_sweep|].
  unfold decls_new. apply no_cr_body; [by rewrite !length_map|]. split.
  - by apply Forall_fmap.
  - apply Forall_fmap, Forall_forall. intros e He. cbn.
    apply no_cr_sweep; [done|].
    rewrite Forall_forall in Hsegs. apply Hsegs, list_elem_of_fmap. eauto.
Qed.

(** A second run on the file a first run has written finds the names
    where the first run put them, and writes the same file. *)
Lemma reconcile_document_again name decomp_file wat_file s0 items :
  wat_dir !! name = Some wat_file →
  read_text decomp_file = s0 +:+ decls_old items →
  extract_wat_imports (read_text wat_file)
  = map (λ e, (it_module e, it_field e)) items →
  covered mapping items = true →
  standard_form (sweep items s0) (renamed items) = true →
  process_file mapping wat_dir name (sweep items s0 +:+ decls_new items)
  = inr (sweep items s0 +:+ decls_new items).
Proof.
  intros Hwat Hread Hpairs Hcov Hstd.
  assert (Hnames : Forall (λ e, no_cr (it_name e) = true) items).
  { unfold standard_form in Hstd. rewrite !andb_true_iff in Hstd.
    destruct Hstd as [[[[[Hid _] _] _] _] _].
    unfold renamed in Hid. rewrite map_map, forallb_forall in Hid.
    apply Forall_forall. intros e He.
    apply no_cr_identifier, Hid, in_map_iff. exists e.
    split; [done|by apply list_elem_of_In]. }
  rewrite (reconcile_document name (sweep items s0 +:+ decls_new items)
             wat_file (sweep items s0) (renamed items)); try done.
  - unfold renamed at 1. by rewrite sweep_renamed, decls_new_renamed.
  - rewrite decls_old_renamed. apply read_text_id.
    by apply (no_cr_reconciled decomp_file).
  - by rewrite extract_wat_renamed.
  - by apply covered_renamed.
Qed.

End Document.

(** ** Reconciliation: the scenario, three imports, and a second run *)

Lemma process_pairs_single mapping wat_dir name text text' :
  process_file mapping wat_dir name text = inr text' →
  process_pairs mapping wat_dir [(name, text)] = ([(name, text')], inr tt).
Proof. intros H. cbn [process_pairs]. by rewrite H. Qed.

Lemma replace_absent a n t :
  Str.contains (old_pat a) t = false →
  Str.replace (old_pat a) (old_pat n) t = t.
Proof. apply replace_go_absent. Qed.

(** The run on the scenario of the specification, whatever the order in
    which the file system lists a directory. *)
Lemma main_scenario listdir :
  (∀ dir, listdir dir ≡ₚ dir) →
  main scenario_urlopen scenario_decompile listdir scenario_world
  = (World [("contract", "wasm")] {[ "contract" := scenario_wat ]}
       [("contract", scenario_expected)], inr tt).
Proof.
  intros Hperm. unfold main.
  assert (fetch_json scenario_urlopen env_url = inr scenario_env) as ->
    by (vm_compute; reflexivity).
  assert (build_map scenario_env = inr {[ "v1" := "read_contract_data" ]})
    as -> by (vm_compute; reflexivity).
  cbn [contracts wat decomp scenario_world].
  rewrite (proj1 (Permutation_singleton_r _ _) (Hperm _)).
  cbn [decompile_all scenario_decompile write_file].
  rewrite (proj1 (Permutation_singleton_r _ _) (Hperm _)).
  assert (process_pairs {[ "v1" := "read_contract_data" ]}
            {[ "contract" := scenario_wat ]} [("contract", scenario_decomp)]
          = ([("contract", scenario_expected)], inr tt)) as ->
    by (vm_compute; reflexivity).
  done.
Qed.

(** C1, as amended.  For every file whose text, as [read_text] returns it
    (CR LF and a lone CR read as LF), is in the decompiler's form with
    three imports [a], [b], [c] (pairwise distinct identifiers, each
    declared as [import function a(], the text around the declarations
    holding no import keywords), a reference disassembly that lists their
    three pairs in order, and a naming table that maps the three keys to
    names without space or parenthesis, none of which is the identifier of
    a later import: the file is written back as the text read, with the
    three identifiers replaced by the three names; a stretch of text
    around the declarations is changed by the same three substitutions and
    by nothing else, so that a stretch that holds none of [" a("],
    [" b("], [" c("] is unchanged.  A file without carriage return is
    read as it is, so that nothing else of it is altered; the line ends of
    a file that holds one are written back as LF.
    And end to end on the scenario of the specification: with the
    descriptor served at the raw-content address and a decompiler that
    prints the file with [import function l_1(a:long):long;], the run ends
    normally and leaves the file with [read_contract_data] in place of
    [l_1], in whatever order the file system lists a directory. *)
Theorem reconcile_three_imports mapping wat_dir name decomp_file wat_file
    s0 a s1 b s2 c s3 m1 f1 m2 f2 m3 f3 n1 n2 n3 :
  let subst t :=
    Str.replace (old_pat c) (old_pat n3)
      (Str.replace (old_pat b) (old_pat n2)
         (Str.replace (old_pat a) (old_pat n1) t)) in
  wat_dir !! name = Some wat_file →
  read_text decomp_file
  = s0 +:+ decl a +:+ s1 +:+ decl b +:+ s2 +:+ decl c +:+ s3 →
  extract_wat_imports (read_text wat_file)
  = [(m1, f1); (m2, f2); (m3, f3)] →
  mapping !! (m1 +:+ f1) = Some n1 →
  mapping !! (m2 +:+ f2) = Some n2 →
  mapping !! (m3 +:+ f3) = Some n3 →
  standard_form s0 [ImportItem a s1 m1 f1 n1; ImportItem b s2 m2 f2 n2;
                    ImportItem c s3 m3 f3 n3] = true →
  process_pairs mapping wat_dir [(name, decomp_file)]
  = ([(name, subst s0 +:+ decl n1 +:+ subst s1 +:+ decl n2 +:+ subst s2
             +:+ decl n3 +:+ subst s3)], inr tt)
  ∧ (no_cr decomp_file = true → read_text decomp_file = decomp_file)
  ∧ (∀ t, Str.contains (old_pat a) t = false →
          Str.contains (old_pat b) t = false →
          Str.contains (old_pat c) t = false → subst t = t)
  ∧ build_map scenario_env = inr {[ "v1" := "read_contract_data" ]}
  ∧ (∀ listdir, (∀ dir, listdir dir ≡ₚ dir) →
       main scenario_urlopen scenario_decompile listdir scenario_world
       = (World [("contract", "wasm")] {[ "contract" := scenario_wat ]}
            [("contract", scenario_expected)], inr tt)).
Proof.
  intros subst Hwat Hread Hpairs H1 H2 H3 Hstd. split_and!.
  - apply process_pairs_single.
    pose proof (reconcile_document mapping wat_dir name decomp_file wat_file
                  s0
                  [ImportItem a s1 m1 f1 n1; ImportItem b s2 m2 f2 n2;
                   ImportItem c s3 m3 f3 n3] Hwat) as Hdoc.
    unfold decls_old, decls_new, sweep in Hdoc.
    cbn [map body foldl it_ident it_after it_name] in Hdoc.
    rewrite !app_nil_r in Hdoc. apply Hdoc; [done|done| |done].
    cbn [covered forallb it_module it_field it_name].
    by rewrite !bool_decide_eq_true_2.
  - apply read_text_id.
  - intros t Ha Hb Hc. unfold subst.
    by rewrite (replace_absent a n1 t Ha), (replace_absent b n2 t Hb),
      (replace_absent c n3 t Hc).
  - vm_compute; reflexivity.
  - apply main_scenario.
Qed.

(** C4, as amended.  A second run on a file that a first run has renamed
    does not fail: when the text read from the file is in the
    decompiler's form, and what the first run wrote is in that form again
    (its canonical names are pairwise distinct identifiers), the second
    run finds every name where the first run put it and writes the file
    back as the first run left it, line ends included. *)
Theorem second_run_changes_nothing mapping wat_dir name decomp_file wat_file
    s0 items :
  wat_dir !! name = Some wat_file →
  read_text decomp_file = s0 +:+ decls_old items →
  extract_wat_imports (read_text wat_file)
  = map (λ e, (it_module e, it_field e)) items →
  covered mapping items = true →
  standard_form s0 items = true →
  standard_form (sweep items s0) (renamed items) = true →
  process_pairs mapping wat_dir [(name, decomp_file)]
  = ([(name, sweep items s0 +:+ decls_new items)], inr tt)
  ∧ process_pairs mapping wat_dir [(name, sweep items s0 +:+ decls_new items)]
    = ([(name, sweep items s0 +:+ decls_new items)], inr tt).
Proof.
  intros Hwat Hread Hpairs Hcov Hstd Hagain.
  split; apply process_pairs_single.
  - by apply (reconcile_document _ _ _ _ wat_file s0 items).
  - by apply (reconcile_document_again _ _ _ decomp_file wat_file).
Qed.

Lemma reconcile_three_imports_witness :
  let mapping : gmap string string :=
    {[ "v1" := "read_contract_data"; "v2" := "put_contract_data";
       "x1" := "log" ]} in
  let wat_file :=
    wat_import "v" "1" +:+ crlf +:+ wat_import "v" "2" +:+ crlf +:+
    wat_import "x" "1" +:+ crlf in
  let wat_dir : gmap string string := {[ "c" := wat_file ]} in
  let decomp_file :=
    "export memory m(initial: 1);" +:+ crlf +:+
    "import function l_1(a:long):long;" +:+ crlf +:+
    "import function l_2(a:long, b:long):long;" +:+ nl +:+
    "import function l_3(a:int);" +:+ nl +:+
    "function f() { l_3(1); return l_1(0L) }" +:+ crlf in
  let s0 := "export memory m(initial: 1);" +:+ nl in
  let s1 := "a:long):long;" +:+ nl in
  let s2 := "a:long, b:long):long;" +:+ nl in
  let s3 := "a:int);" +:+ nl +:+
            "function f() { l_3(1); return l_1(0L) }" +:+ nl in
  wat_dir !! "c" = Some wat_file ∧
  read_text decomp_file
  = s0 +:+ decl "l_1" +:+ s1 +:+ decl "l_2" +:+ s2 +:+ decl "l_3" +:+ s3 ∧
  extract_wat_imports (read_text wat_file)
  = [("v", "1"); ("v", "2"); ("x", "1")] ∧
  mapping !! ("v" +:+ "1") = Some "read_contract_data" ∧
  mapping !! ("v" +:+ "2") = Some "put_contract_data" ∧
  mapping !! ("x" +:+ "1") = Some "log" ∧
  standard_form s0
    [ImportItem "l_1" s1 "v" "1" "read_contract_data";
     ImportItem "l_2" s2 "v" "2" "put_contract_data";
     ImportItem "l_3" s3 "x" "1" "log"] = true ∧
  process_pairs mapping wat_dir [("c", decomp_file)]
  = ([("c",
       "export memory m(initial: 1);" +:+ nl +:+
       "import function read_contract_data(a:long):long;" +:+ nl +:+
       "import function put_contract_data(a:long, b:long):long;" +:+ nl +:+
       "import function log(a:int);" +:+ nl +:+
       "function f() { log(1); return read_contract_data(0L) }" +:+ nl)],
     inr tt).
Proof.
  do 7 (split; [vm_compute; reflexivity|]).
  etrans.
  - refine (proj1 (reconcile_three_imports
      {[ "v1" := "read_contract_data"; "v2" := "put_contract_data";
         "x1" := "log" ]}
      {[ "c" := wat_import "v" "1" +:+ crlf +:+ wat_import "v" "2" +:+ crlf
                +:+ wat_import "x" "1" +:+ crlf ]}
      "c"
      ("export memory m(initial: 1);" +:+ crlf +:+
       "import function l_1(a:long):long;" +:+ crlf +:+
       "import function l_2(a:long, b:long):long;" +:+ nl +:+
       "import function l_3(a:int);" +:+ nl +:+
       "function f() { l_3(1); return l_1(0L) }" +:+ crlf)
      (wat_import "v" "1" +:+ crlf +:+ wat_import "v" "2" +:+ crlf +:+
       wat_import "x" "1" +:+ crlf)
      ("export memory m(initial: 1);" +:+ nl)
      "l_1" ("a:long):long;" +:+ nl)
      "l_2" ("a:long, b:long):long;" +:+ nl)
      "l_3" ("a:int);" +:+ nl +:+
             "function f() { l_3(1); return l_1(0L) }" +:+ nl)
      "v" "1" "v" "2" "x" "1" "read_contract_data" "put_contract_data" "log"
      _ _ _ _ _ _ _)); vm_compute; reflexivity.
  - vm_compute. reflexivity.
Defined.

(** The chain: the table covers the three keys, but the first import ends
    with the name of the second. *)
Lemma reconcile_three_imports_chained :
  extract_decomp_imports chain_decomp = ["a"; "b"; "c"] ∧
  extract_wat_imports chain_wat = [("m", "1"); ("m", "2"); ("m", "3")] ∧
  chain_mapping !! "m1" = Some "b" ∧
  chain_mapping !! "m2" = Some "x" ∧
  chain_mapping !! "m3" = Some "y" ∧
  process_pairs chain_mapping {[ "f" := chain_wat ]} [("f", chain_decomp)]
  = ([("f", "import function x();" +:+ nl +:+ "import function x();" +:+ nl
            +:+ "import function y();" +:+ nl)], inr tt).
Proof. repeat split; vm_compute; reflexivity. Qed.

Lemma second_run_changes_nothing_witness :
  let mapping : gmap string string := {[ "v1" := "read_contract_data" ]} in
  let wat_dir : gmap string string := {[ "contract" := scenario_wat ]} in
  wat_dir !! "contract" = Some scenario_wat ∧
  read_text scenario_decomp = scenario_head +:+ decls_old scenario_items ∧
  extract_wat_imports (read_text scenario_wat)
    = map (λ e, (it_module e, it_field e)) scenario_items ∧
  covered mapping scenario_items = true ∧
  standard_form scenario_head scenario_items = true ∧
  standard_form (sweep scenario_items scenario_head)
    (renamed scenario_items) = true ∧
  process_pairs mapping wat_dir [("contract", scenario_decomp)]
  = ([("contract", scenario_expected)], inr tt)
  ∧ process_pairs mapping wat_dir [("contract", scenario_expected)]
    = ([("contract", scenario_expected)], inr tt).
Proof.
  do 6 (split; [vm_compute; reflexivity|]).
  assert (Hnew : scenario_expected
                 = sweep scenario_items scenario_head
                   +:+ decls_new scenario_items)
    by (vm_compute; reflexivity).
  rewrite Hnew.
  apply (second_run_changes_nothing {[ "v1" := "read_contract_data" ]}
           {[ "contract" := scenario_wat ]} "contract" scenario_decomp
           scenario_wat scenario_head scenario_items); vm_compute; reflexivity.
Defined.

(** The scenario, reconciled twice: the second run ends normally. *)
Lemma second_run_on_scenario :
  build_map scenario_env = inr {[ "v1" := "read_contract_data" ]} ∧
  process_pairs {[ "v1" := "read_contract_data" ]}
    {[ "contract" := scenario_wat ]} [("contract", scenario_decomp)]
  = ([("contract", scenario_expected)], inr tt) ∧
  process_pairs {[ "v1" := "read_contract_data" ]}
    {[ "contract" := scenario_wat ]} [("contract", scenario_expected)]
  = ([("contract", scenario_expected)], inr tt).
Proof. repeat split; vm_compute; reflexivity. Qed.

(** ** An import identifier that occurs twice *)

Section Repeated.

Implicit Types (x y n w o q t : string) (c : ascii).

(** A substitution of [" y("] by [" n("] changes no word at the head of the
    text: what it replaces starts with a space and so does what it
    writes. *)
Lemma startswith_replace_go w o q t :
  Str.all (λ c, negb (Ascii.eqb " " c)) w = true →
  Str.startswith w (Str.replace_go (String " " o) (String " " q) 0 t)
  = Str.startswith w t.
Proof.
  revert t. induction w as [|e w IH]; intros t; [done|].
  rewrite all_cons. intros [He Hw]%andb_true_iff.
  apply negb_true_iff in He.
  destruct t as [|d t]; [done|].
  destruct (Str.startswith (String " " o) (String d t)) eqn:Hs.
  - cbn [Str.replace_go]. rewrite Hs.
    cbn [Str.startswith String.append] in Hs |- *.
    apply andb_true_iff in Hs as [<-%Ascii.eqb_eq _].
    by rewrite (Ascii.eqb_sym e), He.
  - rewrite replace_go_miss by done. cbn [Str.startswith]. by rewrite IH.
Qed.

Lemma contains_pass_word o w t :
  Str.all (λ c, negb (Ascii.eqb " " c)) w = true →
  Str.contains (String " " o) (w +:+ t) = Str.contains (String " " o) t.
Proof.
  induction w as [|c w IH]; [done|].
  rewrite all_cons. intros [Hc Hw]%andb_true_iff.
  apply negb_true_iff in Hc.
  change (String c w +:+ t) with (String c (w +:+ t)).
  rewrite contains_cons. cbn [Str.startswith]. by rewrite Hc, IH.
Qed.

Lemma plain_paren_no_space x :
  Str.all is_plain x = true →
  Str.all (λ c, negb (Ascii.eqb " " c)) (x +:+ "(") = true.
Proof.
  induction x as [|c x IH]; [done|].
  rewrite all_cons. intros [Hc Hx]%andb_true_iff.
  cbn [String.append]. rewrite all_cons, IH by done.
  by rewrite (plain_not_space c).
Qed.

(** After the substitution of [" y("] by [" n("], the text holds [" x("]
    only if it did before and [y] is not [x]: a name other than [x], free
    of spaces and parentheses, brings no [" x(" with it. *)
Lemma contains_replace_go x y n t :
  Str.all is_plain x = true → Str.all is_plain n = true → n ≠ x →
  y = x ∨ Str.contains (old_pat x) t = false →
  Str.contains (old_pat x) (Str.replace_go (old_pat y) (old_pat n) 0 t)
  = false.
Proof.
  intros Hx Hn Hne. remember (String.length t) as k eqn:Hk. revert t Hk.
  induction k as [k IH] using lt_wf_ind. intros t -> Hor.
  rewrite (old_pat_cons y), (old_pat_cons n), replace_go_unfold.
  rewrite (old_pat_cons y), (old_pat_cons n) in IH.
  destruct (Str.startswith (String " " (y +:+ "(")) t) eqn:Hs.
  - pose proof (startswith_inv _ _ Hs) as Hinv.
    remember (Str.drop (String.length (String " " (y +:+ "("))) t) as r.
    assert (Hr : Str.contains (old_pat x)
                   (Str.replace_go (String " " (y +:+ "("))
                      (String " " (n +:+ "(")) 0 r) = false).
    { apply (IH (String.length r)); [|done|].
      - rewrite Hinv, app_length. cbn [String.length]. lia.
      - destruct Hor as [->|Ht]; [by left|right].
        destruct (Str.contains (old_pat x) r) eqn:Hc; [|done].
        by rewrite Hinv, contains_app_r in Ht. }
    rewrite old_pat_cons in Hr |- *.
    cbn [String.append]. rewrite contains_cons.
    rewrite contains_pass_word, Hr by by apply plain_paren_no_space.
    rewrite orb_false_r, app_assoc. cbn [Str.startswith String.append].
    destruct (Str.startswith (x +:+ "(") _) eqn:Hp; [|done].
    apply plain_paren_eq in Hp; [congruence|done..].
  - destruct t as [|d t]; [done|].
    rewrite contains_cons in Hor |- *.
    rewrite (IH (String.length t)); [|cbn [String.length]; lia|done|].
    2:{ destruct Hor as [->|[_ Ht]%orb_false_iff]; [by left|by right]. }
    rewrite orb_false_r, old_pat_cons. cbn [Str.startswith].
    rewrite startswith_replace_go by by apply plain_paren_no_space.
    destruct Hor as [->|[Hh _]%orb_false_iff]; [done|].
    by rewrite old_pat_cons in Hh.
Qed.

Section Loop.

Variables (mapping : gmap string string) (name : string).

(** Pairs that keep [" x("] out leave it out. *)
Lemma rewrite_imports_keeps_out x pairs t t' :
  Str.all is_plain x = true →
  keeps_out mapping x pairs = true →
  Str.contains (old_pat x) t = false →
  rewrite_imports mapping name pairs t = inr t' →
  Str.contains (old_pat x) t' = false.
Proof.
  intros Hx. revert t.
  induction pairs as [|[y [m1 m2]] pairs IH]; intros t Hkeep Ht.
  - by intros [= <-].
  - cbn [keeps_out forallb fst snd] in Hkeep.
    apply andb_true_iff in Hkeep as [Hhead Hkeep].
    cbn [rewrite_imports]. destruct (mapping !! (m1 +:+ m2)) as [n|]; [|done].
    apply andb_true_iff in Hhead as [Hn Hne%negb_true_iff].
    destruct (Str.contains (old_pat y) t); [|done].
    apply IH; [done|]. apply contains_replace_go; try done; [|by right].
    intros ->. by rewrite String.eqb_refl in Hne.
Qed.

(** Once the text is without [" x("], the loop cannot get past a pair for
    [x]. *)
Lemma rewrite_imports_stops x k rest t :
  Str.contains (old_pat x) t = false →
  ∃ e, rewrite_imports mapping name ((x, k) :: rest) t = inl e ∧
       (is_Some (mapping !! (k.1 +:+ k.2)) → e = expected_not_found x name).
Proof.
  intros Ht. destruct k as [m1 m2]. cbn [rewrite_imports fst snd].
  destruct (mapping !! (m1 +:+ m2)) as [n|].
  - rewrite Ht. by eexists.
  - eexists. split; [done|]. by intros [? ?].
Qed.

Lemma rewrite_imports_repeated before x k1 between k2 rest t :
  Str.all is_plain x = true →
  keeps_out mapping x ((x, k1) :: between) = true →
  ∃ e, rewrite_imports mapping name
         (before ++ (x, k1) :: between ++ (x, k2) :: rest) t = inl e ∧
       (∀ t', rewrite_imports mapping name (before ++ (x, k1) :: between) t
              = inr t' →
              is_Some (mapping !! (k2.1 +:+ k2.2)) →
              e = expected_not_found x name).
Proof.
  intros Hx Hkeep.
  replace (before ++ (x, k1) :: between ++ (x, k2) :: rest)
    with ((before ++ (x, k1) :: between) ++ (x, k2) :: rest)
    by by rewrite <- List.app_assoc.
  rewrite rewrite_imports_app.
  destruct (rewrite_imports mapping name (before ++ (x, k1) :: between) t)
    as [e|t2] eqn:Hprefix.
  - exists e. split; [done|]. by intros t'.
  - assert (Ht2 : Str.contains (old_pat x) t2 = false).
    { rewrite rewrite_imports_app in Hprefix.
      destruct (rewrite_imports mapping name before t) as [|t1]; [done|].
      destruct k1 as [m1 m2]. cbn [rewrite_imports] in Hprefix.
      cbn [keeps_out forallb fst snd] in Hkeep.
      apply andb_true_iff in Hkeep as [Hhead Hkeep].
      destruct (mapping !! (m1 +:+ m2)) as [n|]; [|done].
      apply andb_true_iff in Hhead as [Hn Hne%negb_true_iff].
      destruct (Str.contains (old_pat x) t1); [|done].
      eapply rewrite_imports_keeps_out; [done|exact Hkeep| |exact Hprefix].
      apply contains_replace_go; try done; [|by left].
      intros ->. by rewrite String.eqb_refl in Hne. }
    destruct (rewrite_imports_stops x k2 rest t2 Ht2) as (e & He & Hwhich).
    exists e. split; [done|]. intros _ _. apply Hwhich.
Qed.

End Loop.

(** Every identifier that the pattern captures is an identifier. *)
Lemma span_all p s : Str.all p (Str.span p s).1 = true.
Proof.
  induction s as [|c s IH]; [done|]. cbn [Str.span].
  destruct (p c) eqn:Hc; [|done].
  destruct (Str.span p s) as [a b]. cbn [fst] in *. by rewrite all_cons, Hc.
Qed.

Lemma match_decomp_import_identifier prev s v len :
  match_decomp_import prev s = Some (v, len) → is_identifier v = true.
Proof.
  unfold match_decomp_import. destruct (negb _); [done|].
  destruct (Str.strip_prefix _ s) as [s1|]; [|done].
  destruct (Str.span is_space s1) as [ws1 s2].
  pose proof (span_all is_ident_char s2) as Hall.
  destruct (Str.span is_ident_char s2) as [ident s3].
  destruct (Str.span is_space s3) as [ws2 s4].
  destruct ws1; [done|]. destruct ident as [|c ident]; [done|].
  destruct s4 as [|d s4]; [done|].
  destruct (Ascii.eqb_spec d "(") as [->|Hd].
  - by intros [= <- _].
  - intros H. exfalso. revert H.
    by destruct d as [[] [] [] [] [] [] [] []].
Qed.

Lemma findall_go_identifiers prev skip s :
  Forall (λ y, is_identifier y = true)
    (findall_go match_decomp_import prev skip s).
Proof.
  revert prev skip. induction s as [|c s IH]; intros prev skip; [done|].
  cbn [findall_go]. destruct skip as [|k]; [|apply IH].
  destruct (match_decomp_import prev (String c s)) as [[v len]|] eqn:Hm;
    [|apply IH].
  constructor; [|apply IH]. by eapply match_decomp_import_identifier.
Qed.

End Repeated.

(** C9, as amended.  When an import identifier [x] stands at two positions
    of a file's import list (the identifiers found in the text read from
    the file), and the canonical names of the pairs from the first
    position up to the second, the second left out, hold no space and no
    parenthesis and differ from [x], reconciliation of the file fails and
    the file keeps its content: the substitution at the first position
    removes every [" x("], nothing up to the second position writes one,
    and if the loop gets to the second position with a key that is in the
    table it stops there with the message
    "expected ' x(' in decomp NAME but not found". *)
Theorem repeated_identifier_aborts mapping wat_dir name decomp_file wat_file
    before x k1 between k2 rest :
  let text := read_text decomp_file in
  let wat_text := read_text wat_file in
  wat_dir !! name = Some wat_file →
  zip (extract_decomp_imports text) (extract_wat_imports wat_text)
    = before ++ (x, k1) :: between ++ (x, k2) :: rest →
  keeps_out mapping x ((x, k1) :: between) = true →
  ∃ e, process_file mapping wat_dir name decomp_file = inl e ∧
       (∀ t', length (extract_decomp_imports text)
                = length (extract_wat_imports wat_text) →
              rewrite_imports mapping name (before ++ (x, k1) :: between) text
                = inr t' →
              is_Some (mapping !! (k2.1 +:+ k2.2)) →
              e = SystemExit ("expected ' " +:+ x +:+ "(' in decomp "
                              +:+ name +:+ " but not found")) ∧
       (∀ dir dir' r,
          (name, decomp_file) ∈ dir →
          process_pairs mapping wat_dir dir = (dir', r) →
          (name, decomp_file) ∈ dir' ∧ ∃ e', r = inl e').
Proof.
  intros text wat_text Hwat Hzip Hkeep.
  assert (Hx : Str.all is_plain x = true).
  { apply identifier_plain.
    pose proof (findall_go_identifiers None 0 text) as Hids.
    change (findall_go match_decomp_import None 0 text)
      with (extract_decomp_imports text) in Hids.
    rewrite Forall_forall in Hids. apply Hids.
    apply (elem_of_zip_l x k1 _ (extract_wat_imports wat_text)).
    rewrite Hzip. apply elem_of_app. right. by left. }
  assert (Hfile : ∃ e, process_file mapping wat_dir name decomp_file = inl e ∧
            (∀ t', length (extract_decomp_imports text)
                     = length (extract_wat_imports wat_text) →
                   rewrite_imports mapping name
                     (before ++ (x, k1) :: between) text = inr t' →
                   is_Some (mapping !! (k2.1 +:+ k2.2)) →
                   e = expected_not_found x name)).
  { unfold process_file. rewrite Hwat. cbv zeta.
    fold text wat_text. rewrite Hzip.
    destruct (Nat.eqb_spec (length (extract_decomp_imports text))
                (length (extract_wat_imports wat_text))) as [Hlen|Hlen].
    - destruct (rewrite_imports_repeated mapping name before x k1 between k2
                  rest text Hx Hkeep) as (e & -> & Hwhich).
      exists e. split; [done|]. intros t' _. apply Hwhich.
    - eexists. split; [done|]. by intros t' Hlen'. }
  destruct Hfile as (e & Hfile & Hwhich). exists e. split_and!; [done..|].
  intros dir dir' r. by apply (process_pairs_failing _ _ _ _ _ _ _ _ Hfile).
Qed.

Lemma repeated_identifier_aborts_witness :
  let wat_dir : gmap string string := {[ "f" := chain_wat ]} in
  wat_dir !! "f" = Some chain_wat ∧
  zip (extract_decomp_imports (read_text repeat_decomp))
    (extract_wat_imports (read_text chain_wat))
    = [] ++ ("x", ("m", "1")) :: [("y", ("m", "2"))]
         ++ ("x", ("m", "3")) :: [] ∧
  keeps_out blocked_mapping "x" [("x", ("m", "1")); ("y", ("m", "2"))]
    = true ∧
  process_file blocked_mapping wat_dir "f" repeat_decomp
  = inl (SystemExit "expected ' x(' in decomp f but not found").
Proof.
  do 3 (split; [vm_compute; reflexivity|]).
  destruct (repeated_identifier_aborts blocked_mapping {[ "f" := chain_wat ]}
              "f" repeat_decomp chain_wat [] "x" ("m", "1")
              [("y", ("m", "2"))] ("m", "3") [])
    as (e & Hrun & Hwhich & _); [vm_compute; reflexivity..|].
  rewrite Hrun. f_equal.
  apply (Hwhich ("import function n();" +:+ nl +:+ "import function z();"
                 +:+ nl +:+ "import function n();" +:+ nl)).
  - vm_compute; reflexivity.
  - vm_compute; reflexivity.
  - exists "k". vm_compute; reflexivity.
Defined.

(** The identifier [x] stands at the first and the third position, the
    name of the first differs from it, the lists agree in length and the
    table has the three keys; the name of the second import is [x], and
    reconciliation ends normally. *)
Lemma repeated_identifier_passes :
  extract_decomp_imports repeat_decomp = ["x"; "y"; "x"] ∧
  extract_wat_imports chain_wat = [("m", "1"); ("m", "2"); ("m", "3")] ∧
  repeat_mapping !! "m1" = Some "n" ∧
  repeat_mapping !! "m2" = Some "x" ∧
  repeat_mapping !! "m3" = Some "k" ∧
  process_pairs repeat_mapping {[ "f" := chain_wat ]} [("f", repeat_decomp)]
  = ([("f", "import function n();" +:+ nl +:+ "import function k();" +:+ nl
            +:+ "import function n();" +:+ nl)], inr tt).
Proof. repeat split; vm_compute; reflexivity. Qed.

(** ** The address that is fetched *)

Section FetchUrl.

Implicit Types (p q s t url : string).

(** The first occurrence is replaced where it stands when none starts
    before it. *)
Lemma replace_go_first c o o' l new s t :
  String c o = o' +:+ String l "" →
  Str.contains (String c o) (s +:+ o') = false →
  Str.replace_go (String c o) new 0 (s +:+ String c o +:+ t)
  = s +:+ new +:+ Str.replace_go (String c o) new 0 t.
Proof.
  intros Hold. induction s as [|d s IH]; intros Hc.
  - apply replace_go_hit.
  - change (String d s +:+ o') with (String d (s +:+ o')) in Hc.
    rewrite contains_cons in Hc. apply orb_false_iff in Hc as [Hhere Hlater].
    change (String d s +:+ ?u) with (String d (s +:+ u)).
    rewrite replace_go_miss; [by rewrite IH|].
    change (String d (s +:+ String c o +:+ t))
      with (String d s +:+ String c o +:+ t).
    rewrite Hold, app_assoc, <- (app_assoc (String d s)).
    rewrite startswith_app_fits; [by rewrite <- Hold|].
    rewrite !app_length. cbn [String.length]. lia.
Qed.

(** X20: an address made of [https://github.com], a path, the segment
    [/blob/] and a rest, with no second occurrence of the host prefix or
    of the segment, is fetched at the raw-content host with the segment
    replaced by a slash.  The address that the program fetches is of this
    form. *)
Theorem fetch_url_raw p q :
  Str.contains "https://github.com" (p +:+ "/blob/" +:+ q) = false →
  Str.contains "/blob/" (p +:+ "/blob") = false →
  Str.contains "/blob/" q = false →
  fetch_url ("https://github.com" +:+ p +:+ "/blob/" +:+ q)
  = "https://raw.githubusercontent.com" +:+ p +:+ "/" +:+ q.
Proof.
  intros Hhost Hseg Hrest. unfold fetch_url.
  assert (Hguard : Str.contains "github.com"
                     ("https://github.com" +:+ p +:+ "/blob/" +:+ q)
                   && Str.contains "/blob/"
                        ("https://github.com" +:+ p +:+ "/blob/" +:+ q)
                   = true).
  { apply andb_true_iff. split.
    - apply (contains_middle "github.com" "https://").
    - apply (contains_app_r _ "https://github.com"), contains_middle. }
  rewrite Hguard.
  change (Str.replace "https://github.com" ?n ?u)
    with (Str.replace_go "https://github.com" n 0 u).
  change (Str.replace "/blob/" ?n ?u)
    with (Str.replace_go "/blob/" n 0 u).
  rewrite replace_go_hit.
  rewrite (replace_go_absent "https://github.com") by done.
  rewrite <- (app_assoc "https://raw.githubusercontent.com" p).
  rewrite (replace_go_first "/" "blob/" "/blob" "/"); [| done |].
  - by rewrite replace_go_absent, !app_assoc by done.
  - rewrite app_assoc. cbn. exact Hseg.
Qed.

Lemma fetch_url_raw_witness :
  Str.contains "https://github.com"
    ("/stellar/rs-soroban-env" +:+ "/blob/"
     +:+ "main/soroban-env-common/env.json") = false ∧
  Str.contains "/blob/" ("/stellar/rs-soroban-env" +:+ "/blob") = false ∧
  Str.contains "/blob/" "main/soroban-env-common/env.json" = false ∧
  fetch_url env_url
  = "https://raw.githubusercontent.com/stellar/rs-soroban-env/main/soroban-env-common/env.json".
Proof.
  do 3 (split; [vm_compute; reflexivity|]).
  apply (fetch_url_raw "/stellar/rs-soroban-env"
           "main/soroban-env-common/env.json"); vm_compute; reflexivity.
Defined.

(** C8: the normalisation misses an address with the scheme [http].  The
    address holds [github.com] and [/blob/], so that the test of line 18
    lets it through to the rewriting; the first substitution of line 19
    looks for [https://github.com] and finds nothing, the second removes
    the segment: the address that is fetched has lost [/blob/] and kept
    its host, and is neither the address given nor the raw-content
    address. *)
Lemma fetch_url_keeps_host :
  Str.contains "github.com" "http://github.com/o/r/blob/main/f"
  && Str.contains "/blob/" "http://github.com/o/r/blob/main/f" = true ∧
  fetch_url "http://github.com/o/r/blob/main/f" = "http://github.com/o/r/main/f" ∧
  Str.contains "raw.githubusercontent.com"
    (fetch_url "http://github.com/o/r/blob/main/f") = false.
Proof. repeat split; vm_compute; reflexivity. Qed.

End FetchUrl.

(** * Further properties of the code *)

(** ** The naming table *)

(** X1: on a descriptor whose function entries, in the modules that take
    part, all have both fields, the builder returns a table that maps every
    key, module alias directly followed by function alias, to the name of
    the last function entry that gives the key, and holds no other key. *)
Theorem build_map_lookup env :
  complete env = true →
  ∃ m, build_map env = inr m ∧ ∀ k, m !! k = assoc_last k (bindings env).
Proof.
  intros Hc. eexists. split; [by apply build_map_complete|].
  intros k. rewrite foldl_insert_binding_lookup.
  destruct (assoc_last k (bindings env)); [done|apply lookup_empty].
Qed.

Lemma build_map_lookup_witness :
  let env :=
    Descriptor (Some
      [ModuleEntry (Some "v")
         (Some [FunctionEntry (Some "1") (Some "read_contract_data");
                FunctionEntry (Some "_") (Some "put_contract_data")]);
       ModuleEntry None (Some [FunctionEntry None None]);
       ModuleEntry (Some "x") None]) in
  complete env = true ∧
  ∃ m, build_map env = inr m ∧ ∀ k, m !! k = assoc_last k (bindings env).
Proof.
  split; [reflexivity|].
  apply (build_map_lookup
           (Descriptor (Some
              [ModuleEntry (Some "v")
                 (Some [FunctionEntry (Some "1") (Some "read_contract_data");
                        FunctionEntry (Some "_") (Some "put_contract_data")]);
               ModuleEntry None (Some [FunctionEntry None None]);
               ModuleEntry (Some "x") None]))).
  reflexivity.
Defined.

(** ** The import identifiers of a decompiled file *)

(** X2: whatever the text, every import identifier that is extracted from
    it is a non-empty string of letters, digits and underscores. *)
Theorem extract_decomp_imports_identifiers text :
  Forall (λ y, is_identifier y = true) (extract_decomp_imports text).
Proof. apply findall_go_identifiers. Qed.

(** X3: a text that does not hold the keywords [import function] has no
    import identifiers. *)
Theorem extract_decomp_imports_none text :
  Str.contains "import function" text = false →
  extract_decomp_imports text = [].
Proof.
  intros Hkw. unfold extract_decomp_imports, findall.
  rewrite <- (app_nil_r text). by rewrite findall_go_quiet by (done || by left).
Qed.

Lemma extract_decomp_imports_none_witness :
  Str.contains "import function" "export function f(a:int) { import(a) }"
    = false ∧
  extract_decomp_imports "export function f(a:int) { import(a) }" = [].
Proof.
  split; [vm_compute; reflexivity|].
  apply (extract_decomp_imports_none "export function f(a:int) { import(a) }").
  vm_compute; reflexivity.
Defined.

(** X4: the import identifiers of a file in the decompiler's form, that
    is, of declarations [import function ident(] with identifiers for
    [ident] and quiet text before, between and after them, are the
    declared identifiers in the order of the declarations. *)
Theorem extract_decomp_imports_declared s0 idents segs :
  length idents = length segs →
  forallb is_identifier idents = true →
  quiet s0 = true →
  forallb quiet segs = true →
  extract_decomp_imports (s0 +:+ body idents segs) = idents.
Proof.
  intros Hlen Hids Hs0 Hsegs. rewrite forallb_forall in Hids, Hsegs.
  unfold quiet in Hs0. rewrite andb_true_iff, !negb_true_iff in Hs0.
  destruct Hs0 as [Hkw Hlast].
  apply findall_go_body; try done.
  - unfold after. by destruct (Str.last s0).
  - apply Forall_forall. intros y Hy. by apply Hids, list_elem_of_In.
  - apply Forall_forall. intros t Ht. by apply Hsegs, list_elem_of_In.
Qed.

Lemma extract_decomp_imports_declared_witness :
  let s0 := "export memory m(initial: 1);" +:+ nl in
  let idents := ["l_1"; "f_b"] in
  let segs := ["a:long):long;" +:+ nl; "):int;" +:+ nl] in
  length idents = length segs ∧
  forallb is_identifier idents = true ∧
  quiet s0 = true ∧
  forallb quiet segs = true ∧
  extract_decomp_imports (s0 +:+ body idents segs) = idents.
Proof.
  do 4 (split; [vm_compute; reflexivity|]).
  apply (extract_decomp_imports_declared
           ("export memory m(initial: 1);" +:+ nl) ["l_1"; "f_b"]
           ["a:long):long;" +:+ nl; "):int;" +:+ nl]);
    vm_compute; reflexivity.
Defined.

Section WordBoundary.

Implicit Types (s t w rest y : string) (c d e : ascii) (prev : option ascii).

(** A literal is not found at the start of a word that stops at [d] when
    one of its characters cannot be in the word and [d] is not among the
    characters before that one. *)
Lemma startswith_blocked (P : ascii → bool) p1 e p2 w d rest :
  Str.all (λ c, negb (Ascii.eqb c d)) p1 = true →
  P e = false → Ascii.eqb e d = false →
  Str.all P w = true →
  Str.startswith (p1 +:+ String e p2) (w +:+ String d rest) = false.
Proof.
  intros Hp1 He Hed. revert w.
  induction p1 as [|a p1 IH]; intros w Hw.
  - destruct w as [|c w]; cbn [String.append Str.startswith].
    + by rewrite Hed.
    + rewrite all_cons in Hw. apply andb_true_iff in Hw as [Hc _].
      destruct (Ascii.eqb_spec e c) as [->|_]; [congruence|done].
  - rewrite all_cons in Hp1. apply andb_true_iff in Hp1 as [Ha Hp1].
    apply negb_true_iff in Ha.
    destruct w as [|c w]; cbn [String.append Str.startswith].
    + by rewrite Ha.
    + rewrite all_cons in Hw. apply andb_true_iff in Hw as [_ Hw].
      rewrite (IH Hp1 w Hw). apply andb_false_r.
Qed.

Lemma keywords_not_in_ident w rest :
  Str.all is_ident_char w = true →
  Str.startswith "import function" (w +:+ String "(" rest) = false.
Proof.
  intros Hw.
  by apply (startswith_blocked is_ident_char "import" " " "function").
Qed.

Lemma findall_go_ident_stop prev w rest :
  Str.all is_ident_char w = true →
  findall_go match_decomp_import prev 0 (w +:+ String "(" rest)
  = findall_go match_decomp_import (Some "("%char) 0 rest.
Proof.
  revert prev. induction w as [|c w IH]; intros prev Hw.
  - cbn [String.append findall_go].
    by rewrite match_decomp_import_None by reflexivity.
  - pose proof (keywords_not_in_ident _ rest Hw) as Hkw.
    rewrite all_cons in Hw. apply andb_true_iff in Hw as [_ Hw].
    cbn [String.append findall_go] in Hkw |- *.
    rewrite match_decomp_import_None by done. by apply IH.
Qed.

Lemma findall_go_miss {A} (m : option ascii → string → option (A * nat))
    prev c s :
  m prev (String c s) = None →
  findall_go m prev 0 (String c s) = findall_go m (Some c) 0 s.
Proof. intros Hm. cbn [findall_go]. by rewrite Hm. Qed.

(** A declaration that directly follows a word character is stepped
    over. *)
Lemma findall_go_glued c y rest :
  is_word_char c = true →
  is_identifier y = true →
  findall_go match_decomp_import (Some c) 0 (decl y +:+ rest)
  = findall_go match_decomp_import (Some "("%char) 0 rest.
Proof.
  intros Hc Hy. rewrite decl_cons.
  rewrite findall_go_miss.
  2:{ unfold match_decomp_import, word_boundary. cbn [from_option].
      by rewrite Hc. }
  cbn [String.append].
  do 15 (rewrite findall_go_miss
           by (apply match_decomp_import_None; reflexivity)).
  apply findall_go_ident_stop. by apply identifier_all.
Qed.

End WordBoundary.

(** X5: the pattern starts with a word boundary.  A declaration that
    follows a space is extracted; put a word character in the place of
    that space, and the declaration is no longer an import for the
    extraction, while the rest of the text gives the same identifiers. *)
Theorem extract_decomp_imports_word_boundary c y rest :
  is_word_char c = true →
  is_identifier y = true →
  extract_decomp_imports (String " " (decl y +:+ rest))
  = y :: extract_decomp_imports (String c (decl y +:+ rest)).
Proof.
  intros Hc Hy. unfold extract_decomp_imports, findall.
  assert (Hkw : ∀ d t, Str.startswith "import function"
                         (String d (String "i" t)) = false).
  { intros d t. cbn [Str.startswith]. apply andb_false_r. }
  assert (Hm : ∀ d, match_decomp_import None (String d (decl y +:+ rest))
                    = None).
  { intros d. apply match_decomp_import_None. rewrite decl_cons. apply Hkw. }
  rewrite !findall_go_miss by apply Hm.
  rewrite findall_go_decl by done. by rewrite findall_go_glued.
Qed.

Lemma extract_decomp_imports_word_boundary_witness :
  is_word_char "x" = true ∧
  is_identifier "f_1" = true ∧
  extract_decomp_imports (String " " (decl "f_1" +:+ "a:int);"))
  = "f_1" :: extract_decomp_imports (String "x" (decl "f_1" +:+ "a:int);")).
Proof.
  do 2 (split; [reflexivity|]).
  apply (extract_decomp_imports_word_boundary "x" "f_1" "a:int);");
    reflexivity.
Defined.

(** ** The imports of a reference disassembly *)

Section WatExtraction.

Implicit Types (s t u rest seg m : string) (c : ascii) (prev : option ascii).

Lemma wat_keyword_not_across s rest :
  s ≠ "" → at_wat rest →
  Str.startswith "(import" s = false →
  Str.startswith "(import" (s +:+ rest) = false.
Proof.
  intros Hne [->|Hrest]; [by rewrite app_nil_r|].
  apply startswith_inv in Hrest. rewrite Hrest. clear Hrest.
  set (r := Str.drop _ rest). clearbody r. clear rest. intros Hs.
  do 7 (destruct s as [|? s];
        [first [done|cbn; by rewrite ?andb_false_r]|]).
  cbn [Str.startswith String.append] in Hs |- *. exact Hs.
Qed.

Lemma match_wat_import_None prev s :
  Str.startswith "(import" s = false → match_wat_import prev s = None.
Proof.
  intros Hs. unfold match_wat_import. by rewrite (strip_prefix_None _ _ Hs).
Qed.

(** The pattern does not look at the character before the position. *)
Lemma findall_go_wat_prev prev prev' skip s :
  findall_go match_wat_import prev skip s
  = findall_go match_wat_import prev' skip s.
Proof.
  destruct s as [|c s]; [done|]. cbn [findall_go]. by destruct skip.
Qed.

Lemma findall_go_wat_quiet prev seg rest :
  at_wat rest →
  Str.contains "(import" seg = false →
  findall_go match_wat_import prev 0 (seg +:+ rest)
  = findall_go match_wat_import prev 0 rest.
Proof.
  intros Hrest. revert prev. induction seg as [|c seg IH]; intros prev; [done|].
  rewrite contains_cons. intros [Hhere Hlater]%orb_false_iff.
  cbn [String.append findall_go].
  change (String c (seg +:+ rest)) with (String c seg +:+ rest).
  rewrite match_wat_import_None by by apply wat_keyword_not_across.
  rewrite (IH (Some c) Hlater). apply findall_go_wat_prev.
Qed.

Lemma span_not_quote m rest :
  Str.all is_not_quote m = true →
  Str.span is_not_quote (m +:+ String "034" rest) = (m, String "034" rest).
Proof.
  induction m as [|c m IH]; [done|].
  rewrite all_cons. intros [Hc Hm]%andb_true_iff.
  cbn [String.append Str.span]. by rewrite Hc, IH.
Qed.

Lemma wat_name_all m : is_wat_name m = true → Str.all is_not_quote m = true.
Proof. by destruct m. Qed.

Lemma wat_entry_cons m1 m2 rest :
  wat_entry m1 m2 +:+ rest
  = "(import" +:+ String " " (String "034" (m1 +:+ String "034" (String " "
      (String "034" (m2 +:+ String "034" rest))))).
Proof.
  unfold wat_entry, quoted. rewrite !app_assoc. cbn [String.append].
  by rewrite ?app_assoc.
Qed.

(** The pattern matches an import line from its parenthesis to the quote
    that closes the second name. *)
Lemma match_wat_import_entry prev m1 m2 rest :
  is_wat_name m1 = true → is_wat_name m2 = true →
  match_wat_import prev (wat_entry m1 m2 +:+ rest)
  = Some ((m1, m2),
          7 + 1 + 1 + String.length m1 + 1 + 1 + 1 + String.length m2 + 1).
Proof.
  intros H1 H2. rewrite wat_entry_cons. unfold match_wat_import.
  rewrite strip_prefix_app. cbn [Str.span].
  change (is_space " ") with true. change (is_space "034") with false.
  cbn iota. rewrite span_not_quote by by apply wat_name_all.
  destruct m1 as [|c1 m1]; [done|]. cbn [Str.span].
  change (is_space " ") with true. change (is_space "034") with false.
  cbn iota. rewrite span_not_quote by by apply wat_name_all.
  by destruct m2 as [|c2 m2].
Qed.

Lemma findall_go_wat_entry prev m1 m2 rest :
  is_wat_name m1 = true → is_wat_name m2 = true →
  findall_go match_wat_import prev 0 (wat_entry m1 m2 +:+ rest)
  = (m1, m2) :: findall_go match_wat_import prev 0 rest.
Proof.
  intros H1 H2.
  pose proof (match_wat_import_entry prev m1 m2 rest H1 H2) as Hm.
  rewrite wat_entry_cons in Hm |- *. cbn [String.append] in Hm |- *.
  rewrite (findall_go_wat_prev prev (Some "034"%char) 0 rest).
  apply (findall_go_match _ _ _ _ _ _
           ("import " +:+ String "034" (m1 +:+ String "034" (String " "
              (String "034" m2)))) _ _ Hm).
  - cbn [String.append]. do 8 f_equal. rewrite app_assoc.
    by cbn [String.append].
  - cbn [String.append String.length]. rewrite app_length.
    cbn [String.length]. lia.
Qed.

Lemma at_wat_body pairs tails : at_wat (wat_body pairs tails).
Proof.
  destruct pairs as [|[m1 m2] pairs], tails as [|t tails]; try by left.
  right. cbn [wat_body]. by rewrite wat_entry_cons.
Qed.

Lemma findall_go_wat_body pairs tails prev seg :
  length pairs = length tails →
  Str.contains "(import" seg = false →
  Forall (λ p, is_wat_name p.1 = true ∧ is_wat_name p.2 = true) pairs →
  Forall (λ t, Str.contains "(import" t = false) tails →
  findall_go match_wat_import prev 0 (seg +:+ wat_body pairs tails) = pairs.
Proof.
  intros Hlen Hseg Hps. revert tails seg Hlen Hseg.
  induction Hps as [|[m1 m2] pairs [H1 H2] _ IH];
    intros [|t tails] seg Hlen Hseg Hts; try done.
  - by rewrite findall_go_wat_quiet by (done || by left).
  - apply Forall_cons in Hts as [Ht Hts].
    rewrite findall_go_wat_quiet by (done || apply at_wat_body).
    cbn [wat_body]. rewrite findall_go_wat_entry by done. f_equal.
    apply IH; [by injection Hlen|done|done].
Qed.

Lemma match_wat_import_names prev s v len :
  match_wat_import prev s = Some (v, len) →
  is_wat_name v.1 = true ∧ is_wat_name v.2 = true.
Proof.
  unfold match_wat_import.
  destruct (Str.strip_prefix _ s) as [s1|]; [|done].
  destruct (Str.span is_space s1) as [ws1 s2].
  destruct ws1; [done|]. destruct s2 as [|q1 s3]; [done|].
  destruct (Ascii.eqb_spec q1 "034") as [->|Hq];
    [|by destruct q1 as [[] [] [] [] [] [] [] []]].
  pose proof (span_all is_not_quote s3) as Hall1.
  destruct (Str.span is_not_quote s3) as [m1 s4].
  destruct m1 as [|c1 m1]; [done|]. destruct s4 as [|q2 s5]; [done|].
  destruct (Ascii.eqb_spec q2 "034") as [->|Hq];
    [|by destruct q2 as [[] [] [] [] [] [] [] []]].
  destruct (Str.span is_space s5) as [ws2 s6].
  destruct ws2; [done|]. destruct s6 as [|q3 s7]; [done|].
  destruct (Ascii.eqb_spec q3 "034") as [->|Hq];
    [|by destruct q3 as [[] [] [] [] [] [] [] []]].
  pose proof (span_all is_not_quote s7) as Hall2.
  destruct (Str.span is_not_quote s7) as [m2 s8].
  destruct m2 as [|c2 m2]; [done|]. destruct s8 as [|q4 s9]; [done|].
  destruct (Ascii.eqb_spec q4 "034") as [->|Hq];
    [|by destruct q4 as [[] [] [] [] [] [] [] []]].
  by intros [= <- _].
Qed.

End WatExtraction.

(** X6: whatever the text of a disassembly, the two names of every import
    that is extracted from it are not empty and hold no double quote. *)
Theorem extract_wat_imports_names text :
  Forall (λ p, is_wat_name p.1 = true ∧ is_wat_name p.2 = true)
    (extract_wat_imports text).
Proof.
  unfold extract_wat_imports, findall.
  generalize (@None ascii) as prev, 0 as skip.
  induction text as [|c s IH]; intros prev skip; [done|].
  cbn [findall_go]. destruct skip as [|k]; [|apply IH].
  destruct (match_wat_import prev (String c s)) as [[v len]|] eqn:Hm;
    [|apply IH].
  constructor; [|apply IH]. by eapply match_wat_import_names.
Qed.

(** X7: the imports of a disassembly that lists its imports as
    [(import "module" "field"], with names that are not empty and hold no
    double quote, one space after [(import] and one between the names, and
    text without [(import] before, between and after them, are the listed
    pairs in the order of the lines. *)
Theorem extract_wat_imports_listed pre pairs tails :
  length pairs = length tails →
  forallb (λ p, is_wat_name p.1 && is_wat_name p.2) pairs = true →
  Str.contains "(import" pre = false →
  forallb (λ t, negb (Str.contains "(import" t)) tails = true →
  extract_wat_imports (pre +:+ wat_body pairs tails) = pairs.
Proof.
  intros Hlen Hps Hpre Hts. rewrite forallb_forall in Hps, Hts.
  apply findall_go_wat_body; try done.
  - apply Forall_forall. intros p Hp.
    by apply andb_true_iff, Hps, list_elem_of_In.
  - apply Forall_forall. intros t Ht.
    by apply negb_true_iff, Hts, list_elem_of_In.
Qed.

Lemma extract_wat_imports_listed_witness :
  let pre := "(module" +:+ nl +:+ "  (type (;0;) (func))" +:+ nl +:+ "  " in
  let pairs := [("v", "1"); ("l", "_")] in
  let tails := [" (func (;0;) (type 0)))" +:+ nl +:+ "  ";
                " (func (;1;) (type 0)))" +:+ nl +:+ ")"] in
  length pairs = length tails ∧
  forallb (λ p, is_wat_name p.1 && is_wat_name p.2) pairs = true ∧
  Str.contains "(import" pre = false ∧
  forallb (λ t, negb (Str.contains "(import" t)) tails = true ∧
  extract_wat_imports (pre +:+ wat_body pairs tails) = pairs.
Proof.
  do 4 (split; [vm_compute; reflexivity|]).
  apply (extract_wat_imports_listed
           ("(module" +:+ nl +:+ "  (type (;0;) (func))" +:+ nl +:+ "  ")
           [("v", "1"); ("l", "_")]
           [" (func (;0;) (type 0)))" +:+ nl +:+ "  ";
            " (func (;1;) (type 0)))" +:+ nl +:+ ")"]);
    vm_compute; reflexivity.
Defined.

(** ** The run of the reconciler over the output directory *)

Section ReconcilerRuns.

Variables (mapping : gmap string string) (wat_dir : gmap string string).

Implicit Types (pairs : list (string * (string * string)))
  (dir : list (string * string)).

Lemma process_pairs_fst dir :
  (process_pairs mapping wat_dir dir).1.*1 = dir.*1.
Proof.
  induction dir as [|[name text] dir IH]; [done|]. cbn [process_pairs].
  destruct (process_file mapping wat_dir name text) as [e|text']; [done|].
  destruct (process_pairs mapping wat_dir dir) as [files' r].
  cbn [fst fmap list_fmap] in *. by rewrite IH.
Qed.

(** A run that ends normally has passed every file. *)
Lemma process_pairs_passed dir dir' name text :
  process_pairs mapping wat_dir dir = (dir', inr tt) →
  (name, text) ∈ dir →
  ∃ text', process_file mapping wat_dir name text = inr text'.
Proof.
  intros Hrun Hin.
  destruct (process_file mapping wat_dir name text) as [e|text'] eqn:Hfile;
    [|by eexists].
  destruct (process_pairs_failing _ _ _ _ _ _ _ _ Hfile Hin Hrun)
    as [_ [e' [=]]].
Qed.

Lemma rewrite_imports_mapped name pairs text text' :
  rewrite_imports mapping name pairs text = inr text' →
  Forall (λ q, is_Some (mapping !! (q.2.1 +:+ q.2.2))) pairs.
Proof.
  revert text. induction pairs as [|[orig [m1 m2]] pairs IH]; intros text;
    [done|].
  cbn [rewrite_imports].
  destruct (mapping !! (m1 +:+ m2)) as [new|] eqn:Hkey; [|done].
  destruct (Str.contains _ _); [|done].
  intros Hrest. constructor; [cbn [fst snd]; by rewrite Hkey|by eapply IH].
Qed.

Lemma process_file_without_imports name decomp_file wat_file :
  wat_dir !! name = Some wat_file →
  Str.contains "import function" decomp_file = false →
  Str.contains "(import" wat_file = false →
  process_file mapping wat_dir name decomp_file = inr (read_text decomp_file).
Proof.
  intros Hwat Hkw Himp. unfold process_file. rewrite Hwat. cbv zeta.
  rewrite <- (contains_read_text "import function") in Hkw by reflexivity.
  rewrite <- (contains_read_text "(import") in Himp by reflexivity.
  assert (extract_decomp_imports (read_text decomp_file) = []) as ->.
  { unfold extract_decomp_imports, findall.
    rewrite <- (app_nil_r (read_text decomp_file)).
    by rewrite findall_go_quiet by (done || by left). }
  assert (extract_wat_imports (read_text wat_file) = []) as ->.
  { unfold extract_wat_imports, findall.
    rewrite <- (app_nil_r (read_text wat_file)).
    by rewrite findall_go_wat_quiet by (done || by left). }
  done.
Qed.

(** X8: an output file without a reference disassembly of its name stops
    the run, when it gets there, with the message "missing wat for NAME";
    the files before it have been rewritten, the file itself and the files
    after it are as they were. *)
Theorem missing_wat_aborts name decomp_text before before' after :
  wat_dir !! name = None →
  process_pairs mapping wat_dir before = (before', inr tt) →
  process_pairs mapping wat_dir (before ++ (name, decomp_text) :: after)
  = (before' ++ (name, decomp_text) :: after,
     inl (SystemExit ("missing wat for " +:+ name))).
Proof.
  intros Hwat Hb. apply process_pairs_abort; [done|].
  unfold process_file. by rewrite Hwat.
Qed.

(** X9: when the loop over the pairs of a file (the identifiers and the
    pairs found in the texts read from the file and from its disassembly)
    reaches an identifier that the text, as the earlier substitutions
    left it, does not hold between a space and an opening parenthesis, the run stops at that file with
    the message "expected ' IDENT(' in decomp NAME but not found"; what
    the earlier pairs substituted in memory is lost, and the file and the
    files after it are as they were. *)
Theorem pattern_absent_aborts name decomp_file wat_file earlier orig m1 m2
    rest new text' before before' after :
  let decomp_text := read_text decomp_file in
  let wat_text := read_text wat_file in
  wat_dir !! name = Some wat_file →
  length (extract_decomp_imports decomp_text)
    = length (extract_wat_imports wat_text) →
  zip (extract_decomp_imports decomp_text) (extract_wat_imports wat_text)
    = earlier ++ (orig, (m1, m2)) :: rest →
  rewrite_imports mapping name earlier decomp_text = inr text' →
  mapping !! (m1 +:+ m2) = Some new →
  Str.contains (" " +:+ orig +:+ "(") text' = false →
  process_pairs mapping wat_dir before = (before', inr tt) →
  process_pairs mapping wat_dir (before ++ (name, decomp_file) :: after)
  = (before' ++ (name, decomp_file) :: after,
     inl (SystemExit ("expected ' " +:+ orig +:+ "(' in decomp " +:+ name
                      +:+ " but not found"))).
Proof.
  intros decomp_text wat_text Hwat Hlen Hzip Hearlier Hkey Habsent Hb.
  apply process_pairs_abort; [done|]. subst decomp_text wat_text.
  unfold process_file. rewrite Hwat. cbv zeta.
  apply Nat.eqb_eq in Hlen as ->.
  rewrite Hzip, rewrite_imports_app, Hearlier.
  cbn [rewrite_imports]. rewrite Hkey.
  change (old_pat orig) with (" " +:+ orig +:+ "("). by rewrite Habsent.
Qed.

(** X12: a run that fails has stopped at the first file on which the loop
    body raises, with the exception of that file: the files before it have
    been rewritten, the file itself and the files after it are as they
    were.  Nothing is rolled back. *)
Theorem process_pairs_fails_at dir dir' e :
  process_pairs mapping wat_dir dir = (dir', inl e) →
  ∃ before before' name text after,
    dir = before ++ (name, text) :: after
    ∧ process_pairs mapping wat_dir before = (before', inr tt)
    ∧ process_file mapping wat_dir name text = inl e
    ∧ dir' = before' ++ (name, text) :: after.
Proof.
  revert dir'. induction dir as [|[name text] dir IH]; intros dir'; [done|].
  cbn [process_pairs].
  destruct (process_file mapping wat_dir name text) as [e0|text'] eqn:Hf.
  - intros [= <- ->]. by exists [], [], name, text, dir.
  - destruct (process_pairs mapping wat_dir dir) as [files' r] eqn:Hrun.
    intros [= <- ->].
    destruct (IH files' eq_refl)
      as (before & before' & n & t & after & -> & Hb & Hnt & ->).
    exists ((name, text) :: before), ((name, text') :: before'), n, t, after.
    split_and!; try done. cbn [process_pairs]. by rewrite Hf, Hb.
Qed.

(** X13: a run that ends normally has found, for every file of the
    directory, its reference disassembly, as many import identifiers in the
    text read from the file as pairs in the text read from the
    disassembly, and the key of every pair of the disassembly in the
    naming table. *)
Theorem process_pairs_success_checked dir dir' name decomp_file :
  process_pairs mapping wat_dir dir = (dir', inr tt) →
  (name, decomp_file) ∈ dir →
  ∃ wat_file,
    wat_dir !! name = Some wat_file
    ∧ length (extract_decomp_imports (read_text decomp_file))
      = length (extract_wat_imports (read_text wat_file))
    ∧ Forall (λ p, is_Some (mapping !! (p.1 +:+ p.2)))
        (extract_wat_imports (read_text wat_file)).
Proof.
  intros Hrun Hin.
  destruct (process_pairs_passed _ _ _ _ Hrun Hin) as [text' Hfile].
  unfold process_file in Hfile.
  destruct (wat_dir !! name) as [wat_file|]; [|done].
  exists wat_file. cbv zeta in Hfile.
  destruct (Nat.eqb_spec
              (length (extract_decomp_imports (read_text decomp_file)))
              (length (extract_wat_imports (read_text wat_file))))
    as [Hlen|]; [|done].
  split_and!; try done.
  apply rewrite_imports_mapped in Hfile.
  rewrite <- (snd_zip (extract_decomp_imports (read_text decomp_file))
                (extract_wat_imports (read_text wat_file))) by lia.
  apply Forall_fmap. eapply Forall_impl; [exact Hfile|]. by intros [? [? ?]].
Qed.

(** X14: a run over a directory whose files hold no import keywords, and
    whose reference disassemblies exist and hold no [(import], ends
    normally and writes every file back as it was read: with LF in the
    place of every CR LF and of every lone CR, and, where no file holds
    a carriage return, as it was. *)
Theorem process_pairs_without_imports dir :
  forallb (λ f, negb (Str.contains "import function" f.2)
                && from_option (λ w, negb (Str.contains "(import" w)) false
                     (wat_dir !! f.1)) dir = true →
  process_pairs mapping wat_dir dir
  = (map (λ f, (f.1, read_text f.2)) dir, inr tt)
  ∧ (forallb (λ f, no_cr f.2) dir = true →
     process_pairs mapping wat_dir dir = (dir, inr tt)).
Proof.
  intros Hdir.
  assert (Hrun : process_pairs mapping wat_dir dir
                 = (map (λ f, (f.1, read_text f.2)) dir, inr tt)).
  { induction dir as [|[name file] dir IH]; [done|].
    cbn [forallb fst snd] in Hdir.
    rewrite !andb_true_iff, negb_true_iff in Hdir.
    destruct Hdir as [[Hkw Hwat] Hdir].
    destruct (wat_dir !! name) as [wat_file|] eqn:Hw; [|done].
    cbn [from_option] in Hwat. apply negb_true_iff in Hwat.
    cbn [process_pairs map fst snd].
    rewrite (process_file_without_imports name file wat_file) by done.
    by rewrite (IH Hdir). }
  split; [done|]. intros Hno. rewrite Hrun. f_equal.
  clear Hdir Hrun. induction dir as [|[name file] dir IH]; [done|].
  cbn [forallb map fst snd] in Hno |- *.
  apply andb_true_iff in Hno as [Hfile Hno].
  by rewrite (read_text_id file Hfile), (IH Hno).
Qed.

End ReconcilerRuns.

Lemma missing_wat_aborts_witness :
  let mapping : gmap string string := {[ "v1" := "read_contract_data" ]} in
  let wat_dir : gmap string string := {[ "c" := wat_import "v" "1" ]} in
  wat_dir !! "d" = None ∧
  process_pairs mapping wat_dir [("c", " import function l_1(a:long);")]
  = ([("c", " import function read_contract_data(a:long);")], inr tt) ∧
  process_pairs mapping wat_dir
    ([("c", " import function l_1(a:long);")]
     ++ ("d", "import function l_1();") :: [("e", "")])
  = ([("c", " import function read_contract_data(a:long);")]
     ++ ("d", "import function l_1();") :: [("e", "")],
     inl (SystemExit ("missing wat for " +:+ "d"))).
Proof.
  do 2 (split; [vm_compute; reflexivity|]).
  apply (missing_wat_aborts {[ "v1" := "read_contract_data" ]}
           {[ "c" := wat_import "v" "1" ]} "d" "import function l_1();"
           [("c", " import function l_1(a:long);")]
           [("c", " import function read_contract_data(a:long);")]
           [("e", "")]); vm_compute; reflexivity.
Defined.

(** A declaration with a tab between the keywords and the identifier is an
    import for the extraction, and not a place for the substitution. *)
Lemma pattern_absent_aborts_witness :
  let mapping : gmap string string := {[ "v1" := "read_contract_data" ]} in
  let wat_file := wat_import "v" "1" +:+ crlf in
  let wat_dir : gmap string string := {[ "c" := wat_file ]} in
  let decomp_file :=
    "import function" +:+ String "009" "l_1(a:long);" +:+ crlf in
  let decomp_text := "import function" +:+ String "009" "l_1(a:long);" +:+ nl in
  wat_dir !! "c" = Some wat_file ∧
  length (extract_decomp_imports (read_text decomp_file))
    = length (extract_wat_imports (read_text wat_file)) ∧
  zip (extract_decomp_imports (read_text decomp_file))
    (extract_wat_imports (read_text wat_file))
    = [] ++ ("l_1", ("v", "1")) :: [] ∧
  rewrite_imports mapping "c" [] (read_text decomp_file) = inr decomp_text ∧
  mapping !! ("v" +:+ "1") = Some "read_contract_data" ∧
  Str.contains (" " +:+ "l_1" +:+ "(") decomp_text = false ∧
  process_pairs mapping wat_dir [] = ([], inr tt) ∧
  process_pairs mapping wat_dir ([] ++ ("c", decomp_file) :: [])
  = ([] ++ ("c", decomp_file) :: [],
     inl (SystemExit ("expected ' " +:+ "l_1" +:+ "(' in decomp " +:+ "c"
                      +:+ " but not found"))).
Proof.
  do 7 (split; [vm_compute; reflexivity|]).
  apply (pattern_absent_aborts {[ "v1" := "read_contract_data" ]}
           {[ "c" := wat_import "v" "1" +:+ crlf ]} "c"
           ("import function" +:+ String "009" "l_1(a:long);" +:+ crlf)
           (wat_import "v" "1" +:+ crlf) [] "l_1" "v" "1" []
           "read_contract_data"
           ("import function" +:+ String "009" "l_1(a:long);" +:+ nl)
           [] [] []);
    vm_compute; reflexivity.
Defined.

Lemma process_pairs_fails_at_witness :
  let mapping : gmap string string := {[ "v1" := "read_contract_data" ]} in
  let wat_dir : gmap string string := {[ "c" := wat_import "v" "1" ]} in
  let dir := [("c", " import function l_1(a:long);");
              ("d", "import function l_1();"); ("e", "")] in
  let dir' := [("c", " import function read_contract_data(a:long);");
               ("d", "import function l_1();"); ("e", "")] in
  process_pairs mapping wat_dir dir
  = (dir', inl (SystemExit "missing wat for d")) ∧
  ∃ before before' name text after,
    dir = before ++ (name, text) :: after
    ∧ process_pairs mapping wat_dir before = (before', inr tt)
    ∧ process_file mapping wat_dir name text
      = inl (SystemExit "missing wat for d")
    ∧ dir' = before' ++ (name, text) :: after.
Proof.
  split; [vm_compute; reflexivity|].
  apply (process_pairs_fails_at {[ "v1" := "read_contract_data" ]}
           {[ "c" := wat_import "v" "1" ]}
           [("c", " import function l_1(a:long);");
            ("d", "import function l_1();"); ("e", "")]
           [("c", " import function read_contract_data(a:long);");
            ("d", "import function l_1();"); ("e", "")]
           (SystemExit "missing wat for d")).
  vm_compute; reflexivity.
Defined.

Lemma process_pairs_success_checked_witness :
  let mapping : gmap string string := {[ "v1" := "read_contract_data" ]} in
  let wat_dir : gmap string string := {[ "c" := wat_import "v" "1" ]} in
  let decomp_file := " import function l_1(a:long);" in
  process_pairs mapping wat_dir [("c", decomp_file)]
  = ([("c", " import function read_contract_data(a:long);")], inr tt) ∧
  ("c", decomp_file) ∈ [("c", decomp_file)] ∧
  ∃ wat_file,
    wat_dir !! "c" = Some wat_file
    ∧ length (extract_decomp_imports (read_text decomp_file))
      = length (extract_wat_imports (read_text wat_file))
    ∧ Forall (λ p, is_Some (mapping !! (p.1 +:+ p.2)))
        (extract_wat_imports (read_text wat_file)).
Proof.
  split; [vm_compute; reflexivity|]. split; [apply list_elem_of_here|].
  apply (process_pairs_success_checked {[ "v1" := "read_contract_data" ]}
           {[ "c" := wat_import "v" "1" ]}
           [("c", " import function l_1(a:long);")]
           [("c", " import function read_contract_data(a:long);")]
           "c" " import function l_1(a:long);");
    [vm_compute; reflexivity|apply list_elem_of_here].
Defined.

(** A file with a CR LF and a lone CR, and a file without carriage
    return. *)
Lemma process_pairs_without_imports_witness :
  let wat_dir : gmap string string :=
    {[ "c" := "(module (func (;0;) (type 0)))"; "d" := "(module)" ]} in
  let dir := [("c", "export function f() {}" +:+ crlf +:+ "end"
                    +:+ String "013" "x" +:+ nl);
              ("d", "export function g() {}" +:+ nl)] in
  forallb (λ f, negb (Str.contains "import function" f.2)
                && from_option (λ w, negb (Str.contains "(import" w)) false
                     (wat_dir !! f.1)) dir = true ∧
  process_pairs ∅ wat_dir dir
  = ([("c", "export function f() {}" +:+ nl +:+ "end" +:+ nl +:+ "x" +:+ nl);
      ("d", "export function g() {}" +:+ nl)], inr tt).
Proof.
  split; [vm_compute; reflexivity|].
  etrans.
  - refine (proj1 (process_pairs_without_imports ∅
      {[ "c" := "(module (func (;0;) (type 0)))"; "d" := "(module)" ]}
      [("c", "export function f() {}" +:+ crlf +:+ "end"
             +:+ String "013" "x" +:+ nl);
       ("d", "export function g() {}" +:+ nl)] _)).
    vm_compute; reflexivity.
  - vm_compute; reflexivity.
Defined.

(** ** The batch decompiler and the whole run *)

Section Directories.

Implicit Types (dir : list (string * string)) (n name c : string).

Lemma read_write_same n c dir : read_file n (write_file n c dir) = Some c.
Proof.
  induction dir as [|[n0 c0] dir IH]; cbn [write_file read_file].
  - by rewrite String.eqb_refl.
  - destruct (String.eqb_spec n0 n) as [->|Hne]; cbn [read_file].
    + by rewrite String.eqb_refl.
    + by apply String.eqb_neq in Hne as ->.
Qed.

Lemma read_write_other n n' c dir :
  n ≠ n' → read_file n' (write_file n c dir) = read_file n' dir.
Proof.
  intros Hne. induction dir as [|[n0 c0] dir IH]; cbn [write_file read_file].
  - by apply String.eqb_neq in Hne as ->.
  - destruct (String.eqb_spec n0 n) as [->|Hn0]; cbn [read_file].
    + by apply String.eqb_neq in Hne as ->.
    + by rewrite IH.
Qed.

Lemma write_file_names n c dir n' :
  n' ∈ (write_file n c dir).*1 ↔ n' = n ∨ n' ∈ dir.*1.
Proof.
  induction dir as [|[n0 c0] dir IH]; cbn [write_file].
  - rewrite !fmap_cons. cbn [fst]. rewrite elem_of_cons. tauto.
  - destruct (String.eqb_spec n0 n) as [->|Hn0].
    + rewrite !fmap_cons. cbn [fst]. rewrite !elem_of_cons. tauto.
    + rewrite !fmap_cons. cbn [fst]. rewrite !elem_of_cons, IH. tauto.
Qed.

Lemma distinct_cons n (l : list string) :
  distinct (n :: l) = true → (n ∉ l) ∧ distinct l = true.
Proof.
  cbn [distinct]. rewrite andb_true_iff, negb_true_iff. intros [Hn Hl].
  split; [|done]. intros Hin. by apply (existsb_eqb_false n l Hn n).
Qed.

End Directories.

Section Batch.

Variable urlopen : string -> option descriptor.
Variable wasm_decompile : string -> string * bool.
Variable listdir : list (string * string) -> list (string * string).

Implicit Types (wasms dir : list (string * string)) (n name : string).

Lemma decompile_all_names wasms dir dir' :
  decompile_all wasm_decompile wasms dir = (dir', inr tt) →
  ∀ n, n ∈ dir'.*1 ↔ n ∈ wasms.*1 ∨ n ∈ dir.*1.
Proof.
  revert dir. induction wasms as [|[name wasm] wasms IH]; intros dir.
  - cbn [decompile_all]. intros [= <-] n. rewrite fmap_nil, elem_of_nil.
    tauto.
  - cbn [decompile_all].
    destruct (wasm_decompile wasm) as [out ok]. destruct ok; [|done].
    intros Hrun n. rewrite (IH _ Hrun n), write_file_names, fmap_cons.
    cbn [fst]. rewrite elem_of_cons. tauto.
Qed.

(** X15: when the decompiler exits with status zero on every binary
    module, the batch decompiler ends normally; the output directory then
    holds, under the name of every module, what the decompiler printed for
    it, and every file under another name is as it was. *)
Theorem decompile_all_success wasms dir :
  distinct wasms.*1 = true →
  forallb (λ f, (wasm_decompile f.2).2) wasms = true →
  ∃ dir',
    decompile_all wasm_decompile wasms dir = (dir', inr tt)
    ∧ (∀ name wasm, (name, wasm) ∈ wasms →
         read_file name dir' = Some (wasm_decompile wasm).1)
    ∧ (∀ name, name ∉ wasms.*1 → read_file name dir' = read_file name dir).
Proof.
  revert dir. induction wasms as [|[n w] wasms IH]; intros dir Hdist Hok.
  - exists dir. split_and!; [done| |done].
    intros name wasm Hin. by apply elem_of_nil in Hin.
  - rewrite fmap_cons in Hdist. cbn [fst] in Hdist.
    apply distinct_cons in Hdist as [Hn Hdist].
    cbn [forallb snd] in Hok. apply andb_true_iff in Hok as [Hw Hok].
    cbn [decompile_all].
    destruct (wasm_decompile w) as [out ok] eqn:Hout.
    cbn [snd] in Hw. subst ok.
    destruct (IH (write_file n out dir) Hdist Hok)
      as (dir' & Hrun & Hnew & Hold).
    exists dir'. split_and!; [done| |].
    + intros name wasm [[= -> ->]|Hin]%elem_of_cons.
      * by rewrite (Hold n Hn), read_write_same, Hout.
      * by apply Hnew.
    + intros name Hname. rewrite fmap_cons in Hname. cbn [fst] in Hname.
      apply not_elem_of_cons in Hname as [Hne Hname].
      rewrite (Hold name Hname). by apply read_write_other.
Qed.

(** X16: the batch decompiler stops at the first binary module on which
    the decompiler exits with another status than zero, with the
    exception that names the module; the output file of that module holds
    what the decompiler printed before it failed, and the modules after
    it are not decompiled: but for the modules up to the failing one,
    every output file is as it was. *)
Theorem decompile_all_failure before name wasm after dir :
  forallb (λ f, (wasm_decompile f.2).2) before = true →
  (wasm_decompile wasm).2 = false →
  ∃ dir',
    decompile_all wasm_decompile (before ++ (name, wasm) :: after) dir
    = (dir', inl (CalledProcessError name))
    ∧ read_file name dir' = Some (wasm_decompile wasm).1
    ∧ (∀ n, n ∉ before.*1 → n ≠ name →
         read_file n dir' = read_file n dir).
Proof.
  intros Hok Hfail. revert dir Hok.
  induction before as [|[n0 w0] before IH]; intros dir Hok.
  - cbn [app decompile_all].
    destruct (wasm_decompile wasm) as [out ok]. cbn [snd] in Hfail.
    subst ok. eexists. split_and!; [done|apply read_write_same|].
    intros n _ Hne. by apply read_write_other.
  - cbn [forallb snd] in Hok. apply andb_true_iff in Hok as [Hw Hok].
    rewrite <- app_comm_cons. cbn [decompile_all].
    destruct (wasm_decompile w0) as [out0 ok0]. cbn [snd] in Hw. subst ok0.
    destruct (IH (write_file n0 out0 dir) Hok) as (dir' & Hrun & Hname & Hold).
    exists dir'. split_and!; [done|done|].
    intros n Hn Hne. rewrite fmap_cons in Hn. cbn [fst] in Hn.
    apply not_elem_of_cons in Hn as [Hn0 Hn].
    rewrite (Hold n Hn Hne). by apply read_write_other.
Qed.

(** X18: after a run that ends normally, in whatever order the file
    system lists a directory, the output directory holds a file for every
    binary module and for every file it held before, and no other file;
    and every one of its files has a reference disassembly of its
    name. *)
Theorem main_success_outputs w :
  (∀ dir, listdir dir ≡ₚ dir) →
  (main urlopen wasm_decompile listdir w).2 = inr tt →
  (∀ n, n ∈ (decomp (main urlopen wasm_decompile listdir w).1).*1
        ↔ n ∈ (contracts w).*1 ∨ n ∈ (decomp w).*1)
  ∧ (∀ n, n ∈ (decomp (main urlopen wasm_decompile listdir w).1).*1 →
          is_Some (wat w !! n)).
Proof.
  intros Hperm. unfold main.
  destruct (fetch_json urlopen env_url) as [e|env]; [done|].
  destruct (build_map env) as [e|mapping]; [done|].
  destruct (decompile_all _ _ _) as [d1 [e|[]]] eqn:Hd1; [done|].
  pose proof (process_pairs_fst mapping (wat w) (listdir d1)) as Hnames.
  destruct (process_pairs _ _ _) as [d2 r2] eqn:Hd2.
  cbn [fst snd decomp]. intros ->. cbn [fst] in Hnames. rewrite Hnames.
  split.
  - intros n. rewrite (Hperm d1), (decompile_all_names _ _ _ Hd1 n).
    by rewrite (Hperm (contracts w)).
  - intros n [[n' text] [-> Hin]]%list_elem_of_fmap. cbn [fst].
    destruct (process_pairs_passed _ _ _ _ _ _ Hd2 Hin) as [text' Hfile].
    unfold process_file in Hfile. by destruct (wat w !! n').
Qed.

End Batch.

Lemma decompile_all_success_witness :
  let wasm_decompile := λ wasm : string, ("// " +:+ wasm, true) in
  let wasms := [("a", "wasm a"); ("b", "wasm b")] in
  let dir := [("b", "old b"); ("c", "old c")] in
  distinct wasms.*1 = true ∧
  forallb (λ f, (wasm_decompile f.2).2) wasms = true ∧
  ∃ dir',
    decompile_all wasm_decompile wasms dir = (dir', inr tt)
    ∧ (∀ name wasm, (name, wasm) ∈ wasms →
         read_file name dir' = Some (wasm_decompile wasm).1)
    ∧ (∀ name, name ∉ wasms.*1 → read_file name dir' = read_file name dir).
Proof.
  do 2 (split; [vm_compute; reflexivity|]).
  apply (decompile_all_success (λ wasm : string, ("// " +:+ wasm, true))
           [("a", "wasm a"); ("b", "wasm b")]
           [("b", "old b"); ("c", "old c")]); vm_compute; reflexivity.
Defined.

Lemma decompile_all_failure_witness :
  let wasm_decompile :=
    λ wasm : string, ("// " +:+ wasm, negb (String.eqb wasm "bad")) in
  let dir := [("c", "old c")] in
  forallb (λ f, (wasm_decompile f.2).2) [("a", "wasm a")] = true ∧
  (wasm_decompile "bad").2 = false ∧
  ∃ dir',
    decompile_all wasm_decompile
      ([("a", "wasm a")] ++ ("b", "bad") :: [("c", "wasm c")]) dir
    = (dir', inl (CalledProcessError "b"))
    ∧ read_file "b" dir' = Some (wasm_decompile "bad").1
    ∧ (∀ n, n ∉ [("a", "wasm a")].*1 → n ≠ "b" →
         read_file n dir' = read_file n dir).
Proof.
  do 2 (split; [vm_compute; reflexivity|]).
  apply (decompile_all_failure
           (λ wasm : string, ("// " +:+ wasm, negb (String.eqb wasm "bad")))
           [("a", "wasm a")] "b" "bad" [("c", "wasm c")] [("c", "old c")]);
    vm_compute; reflexivity.
Defined.

(** Two binary modules and an output file of an earlier run, listed last
    file first. *)
Lemma main_success_outputs_witness :
  let listdir := λ dir : list (string * string), reverse dir in
  let w := World [("a", "wasm"); ("contract", "wasm")]
             {[ "a" := scenario_wat; "contract" := scenario_wat;
                "old" := "(module)" ]}
             [("old", "export function f() {}")] in
  (∀ dir, listdir dir ≡ₚ dir) ∧
  (main scenario_urlopen scenario_decompile listdir w).2 = inr tt ∧
  (∀ n, n ∈ (decomp (main scenario_urlopen scenario_decompile listdir
                       w).1).*1
        ↔ n ∈ (contracts w).*1 ∨ n ∈ (decomp w).*1)
  ∧ (∀ n, n ∈ (decomp (main scenario_urlopen scenario_decompile listdir
                         w).1).*1 →
          is_Some (wat w !! n)).
Proof.
  split; [intros dir; apply reverse_Permutation|].
  split; [vm_compute; reflexivity|].
  apply (main_success_outputs scenario_urlopen scenario_decompile
           (λ dir : list (string * string), reverse dir)
           (World [("a", "wasm"); ("contract", "wasm")]
              {[ "a" := scenario_wat; "contract" := scenario_wat;
                 "old" := "(module)" ]}
              [("old", "export function f() {}")]));
    [intros dir; apply reverse_Permutation|vm_compute; reflexivity].
Defined.
